(** * Resilient client (client.py): circuit breaker, backoff retry, load shedding

    A shallow embedding of [client.py].  Python objects are records, the
    interpreter's side effects (HTTP requests, [time.time()],
    [random.uniform], [time.sleep], [logging]) are explicit updates of a
    [World], and exceptions are the [Raise] results of a state monad whose
    state survives a raise, as attribute assignments do in Python.

    Numbers: Python integers are [Z]; times, delays and jitter are floats in
    the source and exact rationals [Q] here.

    The handlers of [lambda_api.py] are the mock services behind the three
    URLs.  The client sees them through [requests.get] only, so they are not
    modelled one by one: every sequence of answers they can give, and every
    transport failure on the way, is one choice of the [http] field of the
    [World]. *)

From Stdlib Require Import ZArith QArith Qminmax Qpower List String Bool Lia Lqa.
From Equations Require Import Equations.
Import ListNotations.

Local Open Scope Z_scope.

(** ** Exceptions, responses, results *)

(** The subclasses of [Exception] that [client.py] raises or catches by
    class, and one constructor for every other [Exception]. *)
Inductive exn : Type :=
| Timeout                                (* requests.exceptions.Timeout *)
| RequestException (detail : string)     (* any other requests.exceptions.RequestException *)
| ServerError (status : Z)               (* Exception(f"Server Error {status}"), line 35 *)
| CircuitBreakerIsOpen                   (* Exception("CircuitBreaker is OPEN"), line 30 *)
| TypeError (detail : string)            (* builtin TypeError *)
| OtherException (name : string).        (* AttributeError, KeyError, ValueError, ... *)

(** [isinstance(e, (Timeout, RequestException))], the filter of line 64;
    [Timeout] is a subclass of [RequestException]. *)
Definition is_request_exception (e : exn) : bool :=
  match e with
  | Timeout | RequestException _ => true
  | _ => false
  end.

Inductive Res (A : Type) : Type :=
| Ok (a : A)
| Raise (e : exn).
Arguments Ok {A} a.
Arguments Raise {A} e.

(** What the client reads of a [requests.Response]: [status_code], and
    [response.json()['message']], which raises when the body is not JSON or
    has no such key. *)
Record Response : Type := {
  status_code : Z;
  json_message : Res string
}.

(** ** Logging *)

Inductive Level : Type := INFO | WARNING | ERROR | CRITICAL.

(** One constructor per format string of [client.py]. *)
Inductive Message : Type :=
| TransitioningToHalfOpen                       (* line 26 *)
| CircuitIsOpenFailingFast                      (* line 29 *)
| RequestFailed (failure_count : Z)             (* line 45 *)
| FailureThresholdReached                       (* line 48 *)
| MaxRetriesExhausted (max_retries : Z)         (* line 67 *)
| RetryingIn (total_delay : Q) (attempt max_retries : Z)   (* line 75 *)
| FetchingTier1                                 (* line 91 *)
| Success (message : string)                    (* lines 94, 103, 123 *)
| Tier1Failed                                   (* line 96 *)
| FetchingTier2                                 (* line 100 *)
| FallbackActivated                             (* line 106 *)
| FetchingTier3                                 (* line 114 *)
| LoadSheddingActive                            (* line 118 *)
| GracefulDegradation                           (* line 125 *)
| InjectingServerLoad                           (* line 135 *)
| ServerLoadNormalized.                         (* line 139 *)

(** ** The world outside the client

    [http url n] is what the [n]-th request of the run does when it goes to
    [url]; [clock n] is the value of the [n]-th [time.time()]; [uniform n] the
    [n]-th [random.uniform(0, 0.5)].  The three are arbitrary functions: every
    behaviour of the transport, the clock and the generator is one choice of
    them.  [requests], [slept] and [log] record, oldest first, the URLs
    requested, the arguments of [time.sleep] and the log records. *)
Record World : Type := {
  http : string -> nat -> Res Response;
  requests : list string;
  clock : nat -> Q;
  clock_reads : nat;
  uniform : nat -> Q;
  draws : nat;
  slept : list Q;
  log : list (Level * Message)
}.

(** ** The monad of Python statements over a mutable state *)

Definition M (St A : Type) : Type := St -> Res A * St.

Definition ret {St A} (a : A) : M St A := fun s => (Ok a, s).

Definition raise {St A} (e : exn) : M St A := fun s => (Raise e, s).

Definition bind {St A B} (m : M St A) (k : A -> M St B) : M St B :=
  fun s =>
    match m s with
    | (Ok a, s') => k a s'
    | (Raise e, s') => (Raise e, s')
    end.

(** [try: body / except Exception as e: handler e]. *)
Definition try_except {St A} (body : M St A) (handler : exn -> M St A) : M St A :=
  fun s =>
    match body s with
    | (Ok a, s') => (Ok a, s')
    | (Raise e, s') => handler e s'
    end.

(** [try: body / except classes as e: handler e]: exceptions outside
    [classes] propagate. *)
Definition try_except_only {St A} (classes : exn -> bool)
    (body : M St A) (handler : exn -> M St A) : M St A :=
  fun s =>
    match body s with
    | (Ok a, s') => (Ok a, s')
    | (Raise e, s') => if classes e then handler e s' else (Raise e, s')
    end.

Declare Scope py_scope.
Delimit Scope py_scope with py.
Notation "x <- m ;; k" := (bind m (fun x => k))
  (at level 61, m at next level, right associativity) : py_scope.
Notation "m ;; k" := (bind m (fun _ => k))
  (at level 61, right associativity) : py_scope.

(** A method of an object of type [Self] runs on the object and the world. *)
Definition Method (Self A : Type) : Type := M (Self * World) A.

Definition getattr {Self A} (field : Self -> A) : Method Self A :=
  fun s => (Ok (field (fst s)), s).

Definition setattr {Self} (update : Self -> Self) : Method Self unit :=
  fun s => (Ok tt, (update (fst s), snd s)).

(** A statement that only touches the world, run inside a method. *)
Definition io {Self A} (m : M World A) : Method Self A :=
  fun s =>
    let (r, w) := m (snd s) in (r, (fst s, w)).

(** ** Library calls *)

Definition set_requests (l : list string) (w : World) : World :=
  {| http := http w; requests := l; clock := clock w;
     clock_reads := clock_reads w; uniform := uniform w; draws := draws w;
     slept := slept w; log := log w |}.

Definition set_clock_reads (n : nat) (w : World) : World :=
  {| http := http w; requests := requests w; clock := clock w;
     clock_reads := n; uniform := uniform w; draws := draws w;
     slept := slept w; log := log w |}.

Definition set_draws (n : nat) (w : World) : World :=
  {| http := http w; requests := requests w; clock := clock w;
     clock_reads := clock_reads w; uniform := uniform w; draws := n;
     slept := slept w; log := log w |}.

Definition set_slept (l : list Q) (w : World) : World :=
  {| http := http w; requests := requests w; clock := clock w;
     clock_reads := clock_reads w; uniform := uniform w; draws := draws w;
     slept := l; log := log w |}.

Definition set_log (l : list (Level * Message)) (w : World) : World :=
  {| http := http w; requests := requests w; clock := clock w;
     clock_reads := clock_reads w; uniform := uniform w; draws := draws w;
     slept := slept w; log := l |}.

(** [requests.get(url)] *)
Definition requests_get (url : string) : M World Response :=
  fun w => (http w url (List.length (requests w)),
            set_requests (requests w ++ [url]) w).

(** [time.time()] *)
Definition time_time : M World Q :=
  fun w => (Ok (clock w (clock_reads w)), set_clock_reads (S (clock_reads w)) w).

(** [random.uniform(0, 0.5)] *)
Definition random_uniform : M World Q :=
  fun w => (Ok (uniform w (draws w)), set_draws (S (draws w)) w).

(** [time.sleep(seconds)] *)
Definition time_sleep (seconds : Q) : M World unit :=
  fun w => (Ok tt, set_slept (slept w ++ [seconds]) w).

(** [logging.info], [logging.warning], [logging.error], [logging.critical] *)
Definition logging (lvl : Level) (msg : Message) : M World unit :=
  fun w => (Ok tt, set_log (log w ++ [(lvl, msg)]) w).

(** [a > b] on floats. *)
Definition Qgt_bool (a b : Q) : bool := negb (Qle_bool a b).

Definition is_raise {A} (r : Res A) : Prop :=
  match r with Raise _ => True | Ok _ => False end.

(** ** class CircuitBreaker *)

Module CircuitBreaker.

Inductive State : Type := CLOSED | OPEN | HALF_OPEN.

Definition State_eqb (a b : State) : bool :=
  match a, b with
  | CLOSED, CLOSED | OPEN, OPEN | HALF_OPEN, HALF_OPEN => true
  | _, _ => false
  end.

Record t : Type := {
  failure_threshold : Z;
  recovery_timeout : Q;
  failure_count : Z;
  state : State;
  last_failure_time : option Q
}.

(** [__init__], lines 16-21. *)
Definition init (failure_threshold : Z) (recovery_timeout : Q) : t :=
  {| failure_threshold := failure_threshold;
     recovery_timeout := recovery_timeout;
     failure_count := 0;
     state := CLOSED;
     last_failure_time := None |}.

Definition set_failure_count (c : Z) (self : t) : t :=
  {| failure_threshold := failure_threshold self;
     recovery_timeout := recovery_timeout self;
     failure_count := c;
     state := state self;
     last_failure_time := last_failure_time self |}.

Definition set_state (s : State) (self : t) : t :=
  {| failure_threshold := failure_threshold self;
     recovery_timeout := recovery_timeout self;
     failure_count := failure_count self;
     state := s;
     last_failure_time := last_failure_time self |}.

Definition set_last_failure_time (x : option Q) (self : t) : t :=
  {| failure_threshold := failure_threshold self;
     recovery_timeout := recovery_timeout self;
     failure_count := failure_count self;
     state := state self;
     last_failure_time := x |}.

Local Open Scope py_scope.

(** Lines 24-30 of [call]: the check made before the operation.  With
    [last_failure_time] still [None] the subtraction of line 25 raises
    [TypeError], after [time.time()] has been evaluated. *)
Definition gate : Method t unit :=
  st <- getattr state ;;
  if State_eqb st OPEN then
    now <- io time_time ;;
    last <- getattr last_failure_time ;;
    match last with
    | None => raise (TypeError "unsupported operand type(s) for -: 'float' and 'NoneType'")
    | Some last =>
        timeout <- getattr recovery_timeout ;;
        if Qgt_bool (now - last) timeout then
          io (logging WARNING TransitioningToHalfOpen) ;;
          setattr (set_state HALF_OPEN)
        else
          io (logging ERROR CircuitIsOpenFailingFast) ;;
          raise CircuitBreakerIsOpen
    end
  else ret tt.

(** Lines 42-51: the [except Exception as e] handler. *)
Definition on_exception (e : exn) : Method t Response :=
  count <- getattr failure_count ;;
  setattr (set_failure_count (count + 1)) ;;
  now <- io time_time ;;
  setattr (set_last_failure_time (Some now)) ;;
  count <- getattr failure_count ;;
  io (logging ERROR (RequestFailed count)) ;;
  threshold <- getattr failure_threshold ;;
  (if threshold <=? count then
     io (logging CRITICAL FailureThresholdReached) ;;
     setattr (set_state OPEN)
   else ret tt) ;;
  raise e.

(** Lines 32-51: the [try] statement. *)
Definition attempt (func : M World Response) : Method t Response :=
  try_except
    (response <- io func ;;
     (if 500 <=? status_code response
      then raise (ServerError (status_code response))
      else ret tt) ;;
     setattr (set_failure_count 0) ;;
     setattr (set_state CLOSED) ;;
     ret response)
    on_exception.

(** [call(self, func, *args, **kwargs)], lines 23-51; [func] stands for
    the call of [func] on [args] and [kwargs]. *)
Definition call (func : M World Response) : Method t Response :=
  gate ;; attempt func.

(** What the [try] block of [call] makes of the outcome of [func]: the
    exception it raised, or the [ServerError] of line 35 for a status of 500
    or more; [None] for a response that counts as a success. *)
Definition failure_of (r : Res Response) : option exn :=
  match r with
  | Raise e => Some e
  | Ok response =>
      if 500 <=? status_code response
      then Some (ServerError (status_code response))
      else None
  end.

(** The breaker after the [except] handler has run at time [now]. *)
Definition tripped (now : Q) (self : t) : t :=
  let counted :=
    set_last_failure_time (Some now)
      (set_failure_count (failure_count self + 1) self) in
  if failure_threshold self <=? failure_count self + 1
  then set_state OPEN counted
  else counted.

(** The breaker after a successful call. *)
Definition closed (self : t) : t :=
  set_state CLOSED (set_failure_count 0 self).

(** [calls funcs s]: one [call] per element of [funcs], in order, each on the
    breaker and world the previous one left; returns what each call returned
    or raised. *)
Fixpoint calls (funcs : list (M World Response)) (s : t * World)
  : list (Res Response) * (t * World) :=
  match funcs with
  | [] => ([], s)
  | func :: rest =>
      let (r, s1) := call func s in
      let (rs, s2) := calls rest s1 in
      (r :: rs, s2)
  end.

(** The breakers a program can hold: the one [__init__] builds, the one a
    completed [call] leaves, and the one [func] runs against, that is after
    lines 24-30 of the [call] in progress. *)
Inductive reachable (threshold : Z) (timeout : Q) : t -> Prop :=
| reachable_init : reachable threshold timeout (init threshold timeout)
| reachable_gate self w :
    reachable threshold timeout self ->
    reachable threshold timeout (fst (snd (gate (self, w))))
| reachable_call self func w :
    reachable threshold timeout self ->
    reachable threshold timeout (fst (snd (call func (self, w)))).

(** The world after the fail-fast branch: one clock read, one log record. *)
Definition failed_fast (w : World) : World :=
  snd (logging ERROR CircuitIsOpenFailingFast (snd (time_time w))).

(** The world in which a probe runs: one clock read, one log record. *)
Definition probing (w : World) : World :=
  snd (logging WARNING TransitioningToHalfOpen (snd (time_time w))).

(** The world after the [except] handler, entered in world [w]. *)
Definition handled (self : t) (w : World) : World :=
  let w1 := snd (time_time w) in
  let w2 := snd (logging ERROR (RequestFailed (failure_count self + 1)) w1) in
  if failure_threshold self <=? failure_count self + 1
  then snd (logging CRITICAL FailureThresholdReached w2)
  else w2.

(** ** The invariant of the reachable breakers *)

Record Inv (threshold : Z) (timeout : Q) (self : t) : Prop := {
  inv_threshold : failure_threshold self = threshold;
  inv_timeout : recovery_timeout self = timeout;
  inv_count : 0 <= failure_count self;
  inv_time : state self <> CLOSED -> last_failure_time self <> None;
  inv_tripped : state self <> CLOSED -> threshold <= failure_count self;
  inv_closed : 0 < threshold -> state self = CLOSED -> failure_count self < threshold
}.

End CircuitBreaker.


(** ** def exponential_backoff_retry *)

Module Retry.

Local Open Scope py_scope.

(** Line 71: [min(base_delay * (2 ** (retries - 1)), max_delay)]. *)
Definition delay (base_delay max_delay : Q) (retries : Z) : Q :=
  Qmin (base_delay * 2 ^ (retries - 1))%Q max_delay.

Section Decorator.

(** The arguments of the decorator, and the decorated function applied to
    the [args] and [kwargs] of the call; its argument is the [timeout]
    keyword, [None] when the caller passes none. *)
Variables (max_retries : Z) (base_delay max_delay : Q).
Variable func : option Z -> M World Response.

(** Lines 70-76: delay, jitter, log record, sleep. *)
Definition back_off (retries : Z) : M World unit :=
  let delay := delay base_delay max_delay retries in
  jitter <- random_uniform ;;
  let total_delay := (delay + jitter)%Q in
  logging WARNING (RetryingIn total_delay retries max_retries) ;;
  time_sleep total_delay.

(** Lines 60-76: the [while] loop, entered with the given value of
    [retries].  A loop that ends without [return] makes [wrapper] return
    Python's [None]. *)
Equations? loop (retries : Z) : M World (option Response)
  by wf (Z.to_nat (max_retries + 1 - retries)) lt :=
loop retries with Z_le_gt_dec retries max_retries := {
  | left _ :=
      try_except_only is_request_exception
        (response <- func (Some 3) ;; ret (Some response))
        (fun e =>
           let retries := retries + 1 in
           if max_retries <? retries then
             logging ERROR (MaxRetriesExhausted max_retries) ;;
             raise e
           else
             back_off retries ;;
             loop retries)
  | right _ := ret None }.
Proof. lia. Qed.

(** Lines 58-76. *)
Definition wrapper : M World (option Response) := loop 0.

End Decorator.

(** [exponential_backoff_retry(max_retries, base_delay, max_delay)(func)]
    called on the arguments bound in [func]. *)
Definition exponential_backoff_retry (max_retries : Z) (base_delay max_delay : Q)
    (func : option Z -> M World Response) : M World (option Response) :=
  wrapper max_retries base_delay max_delay func.

(** The world after one attempt that raised a request exception and was
    followed by a sleep; [retries] is the counter before the attempt. *)
Definition failed_attempt (max_retries : Z) (base_delay max_delay : Q)
    (url : string) (retries : Z) (w : World) : World :=
  snd (back_off max_retries base_delay max_delay (retries + 1)
         (snd (requests_get url w))).

(** The world after [n] such attempts in a row. *)
Fixpoint failed_attempts (max_retries : Z) (base_delay max_delay : Q)
    (url : string) (n : nat) (retries : Z) (w : World) : World :=
  match n with
  | O => w
  | S n' =>
      failed_attempts max_retries base_delay max_delay url n' (retries + 1)
        (failed_attempt max_retries base_delay max_delay url retries w)
  end.

(** The [i]-th request from world [w] on raises a request exception. *)
Definition fails_at (url : string) (w : World) (i : nat) : Prop :=
  exists e, http w url (List.length (requests w) + i) = Raise e /\
            is_request_exception e = true.

End Retry.

(** ** class ECommerceApp *)

Module ECommerceApp.

Local Open Scope py_scope.

Record t : Type := {
  base_url : string;
  unreliable_circuit_breaker : CircuitBreaker.t;
  system_load : Z
}.

(** [__init__], lines 84-87. *)
Definition init (base_url : string) : t :=
  {| base_url := base_url;
     unreliable_circuit_breaker := CircuitBreaker.init 2 5;
     system_load := 0 |}.

Definition set_unreliable_circuit_breaker (cb : CircuitBreaker.t) (self : t) : t :=
  {| base_url := base_url self;
     unreliable_circuit_breaker := cb;
     system_load := system_load self |}.

Definition set_system_load (load : Z) (self : t) : t :=
  {| base_url := base_url self;
     unreliable_circuit_breaker := unreliable_circuit_breaker self;
     system_load := load |}.

(** A method of [self.unreliable_circuit_breaker], called from a method of
    the application: what it does to the breaker stays in the attribute,
    whether it returns or raises. *)
Definition on_breaker {A} (m : Method CircuitBreaker.t A) : Method t A :=
  fun s =>
    let '(r, (cb, w)) := m (unreliable_circuit_breaker (fst s), snd s) in
    (r, (set_unreliable_circuit_breaker cb (fst s), w)).

(** [response.json()['message']] *)
Definition message_of {St} (response : Response) : M St string :=
  fun s => (json_message response, s).

(** The same on the result of the retry wrapper, which is a response or
    [None]; [None.json()] raises [AttributeError]. *)
Definition message_of_optional {St} (response : option Response) : M St string :=
  match response with
  | Some response => message_of response
  | None => raise (OtherException "AttributeError")
  end.

(** [view_product], lines 89-96. *)
Definition view_product : Method t unit :=
  io (logging INFO FetchingTier1) ;;
  try_except
    (url <- getattr base_url ;;
     response <- io (requests_get (url ++ "/healthy")%string) ;;
     message <- message_of response ;;
     io (logging INFO (Success message)))
    (fun e => io (logging CRITICAL Tier1Failed)).

(** [load_reviews], lines 98-106. *)
Definition load_reviews : Method t unit :=
  io (logging INFO FetchingTier2) ;;
  try_except
    (url <- getattr base_url ;;
     response <- on_breaker (CircuitBreaker.call (requests_get (url ++ "/unreliable")%string)) ;;
     message <- message_of response ;;
     io (logging INFO (Success message)))
    (fun e => io (logging INFO FallbackActivated)).

(** The function of lines 109-110, before decoration.  Its only parameter is
    [self]: a call that passes the keyword [timeout] raises [TypeError]
    before the body runs. *)
Definition fetch_recommendations (self : t) (timeout : option Z) : M World Response :=
  match timeout with
  | Some _ =>
      raise (TypeError "fetch_recommendations_with_retry() got an unexpected keyword argument 'timeout'")
  | None => requests_get (base_url self ++ "/slow")%string
  end.

(** Lines 108-110: the method, decorated with
    [exponential_backoff_retry(max_retries=3)]. *)
Definition fetch_recommendations_with_retry : Method t (option Response) :=
  self <- getattr (fun self => self) ;;
  io (Retry.exponential_backoff_retry 3 1 8 (fetch_recommendations self)).

(** [load_recommendations], lines 112-125. *)
Definition load_recommendations : Method t unit :=
  io (logging INFO FetchingTier3) ;;
  load <- getattr system_load ;;
  if 80 <? load then
    io (logging WARNING LoadSheddingActive)
  else
    try_except
      (response <- fetch_recommendations_with_retry ;;
       message <- message_of_optional response ;;
       io (logging INFO (Success message)))
      (fun e => io (logging INFO GracefulDegradation)).

(** The world after a shed call of [load_recommendations]. *)
Definition shed (w : World) : World :=
  snd (logging WARNING LoadSheddingActive (snd (logging INFO FetchingTier3 w))).

(** The world after a call of [load_recommendations] that was not shed and
    ended in the [except] branch without a request. *)
Definition hidden (w : World) : World :=
  snd (logging INFO GracefulDegradation (snd (logging INFO FetchingTier3 w))).

(** The world after a call of [view_product] whose request or whose
    [response.json()['message']] raised. *)
Definition alerted (self : t) (w : World) : World :=
  snd (logging CRITICAL Tier1Failed
         (snd (requests_get (base_url self ++ "/healthy")%string
                 (snd (logging INFO FetchingTier1 w))))).

End ECommerceApp.

(** ** class ChaosMonkey *)

Module ChaosMonkey.

Local Open Scope py_scope.

(** A [ChaosMonkey] holds a reference to the application, not a copy: its
    methods run on the application object itself. *)

(** [inject_load_spike], lines 134-136, on [self.app]. *)
Definition inject_load_spike : Method ECommerceApp.t unit :=
  io (logging CRITICAL InjectingServerLoad) ;;
  setattr (ECommerceApp.set_system_load 95).

(** [resolve_load_spike], lines 138-140, on [self.app]. *)
Definition resolve_load_spike : Method ECommerceApp.t unit :=
  io (logging INFO ServerLoadNormalized) ;;
  setattr (ECommerceApp.set_system_load 20).

End ChaosMonkey.

(** ** The error taxonomy of the specification

    Section 7 of the specification names four kinds of error.  [kind_of]
    gives the kind of each exception of [client.py]; no statement of
    [client.py] builds an exception that wraps another one. *)
Inductive ErrorKind : Type :=
| TransportError
| ServerErrorKind
| CircuitOpenError
| RetryExhaustedError
| Unclassified.

Definition kind_of (e : exn) : ErrorKind :=
  match e with
  | Timeout | RequestException _ => TransportError
  | ServerError _ => ServerErrorKind
  | CircuitBreakerIsOpen => CircuitOpenError
  | TypeError _ | OtherException _ => Unclassified
  end.



(** What the specification's retry bound asks of the exception that reaches
    the caller once the retries are used up. *)
Definition raises_retry_exhausted {A} (r : Res A) : Prop :=
  exists e, r = Raise e /\ kind_of e = RetryExhaustedError.

(** ** Concrete worlds *)

Module Examples.

(** The world at the start of a run. *)
Definition start (transport : string -> nat -> Res Response)
    (clock uniform : nat -> Q) : World :=
  {| http := transport; requests := [];
     clock := clock; clock_reads := 0;
     uniform := uniform; draws := 0;
     slept := []; log := [] |}.

(** Transports: every request times out; every request is answered 200;
    every request is answered 500. *)
Definition down (url : string) (n : nat) : Res Response := Raise Timeout.

Definition up (url : string) (n : nat) : Res Response :=
  Ok {| status_code := 200; json_message := Ok "ok"%string |}.

Definition erroring (url : string) (n : nat) : Res Response :=
  Ok {| status_code := 500; json_message := Raise (OtherException "KeyError") |}.

(** A clock that advances by one second per reading, and one that reads 10,
    20, 30, ... *)
Definition ticking (n : nat) : Q := inject_Z (Z.of_nat n).

Definition leaping (n : nat) : Q := inject_Z (10 * Z.of_nat (S n)).

(** The scenario of section 8 of the specification: two answers 500, then
    answers 200; the clock reads 0 and 1 in the two handlers, 2 when the third
    call is made and 7 when the fourth is. *)
Definition two_errors_then_up (url : string) (n : nat) : Res Response :=
  if (n <? 2)%nat then erroring url n else up url n.

Definition scenario_clock (n : nat) : Q :=
  match n with
  | 0%nat => 0
  | 1%nat => 1
  | 2%nat => 2
  | _ => 7
  end.

(** A generator that always draws 0.25. *)
Definition quarter (n : nat) : Q := 1 # 4.

(** [requests.get("u")], with or without the [timeout] keyword. *)
Definition get_u : M World Response := requests_get "u".

Definition get_u_kw (timeout : option Z) : M World Response := requests_get "u".

(** A breaker with threshold 2 and timeout 5 that tripped at time 0. *)
Definition tripped_at_0 : CircuitBreaker.t :=
  {| CircuitBreaker.failure_threshold := 2;
     CircuitBreaker.recovery_timeout := 5;
     CircuitBreaker.failure_count := 2;
     CircuitBreaker.state := CircuitBreaker.OPEN;
     CircuitBreaker.last_failure_time := Some 0%Q |}.

(** The breaker of the application after two calls against a transport that
    is down. *)
Definition after_two_timeouts : CircuitBreaker.t * World :=
  snd (CircuitBreaker.call (requests_get "u")
         (snd (CircuitBreaker.call (requests_get "u")
                 (CircuitBreaker.init 2 5, start down ticking quarter)))).

(** The same breaker during the probe of a call made at time 10. *)
Definition probing_after_two_timeouts : CircuitBreaker.t :=
  fst (snd (CircuitBreaker.gate (fst after_two_timeouts, start down leaping quarter))).

End Examples.


(** The sum of a list of durations. *)
Definition total (l : list Q) : Q := fold_right Qplus 0%Q l.

(** ** The script under [if __name__ == "__main__"] *)

Module Main.

Local Open Scope py_scope.

(** The objects the script holds: the application, which [chaos.app] also
    refers to, and what [print] has written, one entry per call. *)
Record t : Type := {
  app : ECommerceApp.t;
  stdout : list string
}.

Definition set_app (a : ECommerceApp.t) (self : t) : t :=
  {| app := a; stdout := stdout self |}.

Definition set_stdout (lines : list string) (self : t) : t :=
  {| app := app self; stdout := lines |}.

(** [print(text)] *)
Definition print (text : string) : Method t unit :=
  setattr (fun self => set_stdout (stdout self ++ [text]) self).

(** A method of [app], or of [chaos] on [chaos.app], called from the
    script. *)
Definition on_app {A} (m : Method ECommerceApp.t A) : Method t A :=
  fun s =>
    let '(r, (a, w)) := m (app (fst s), snd s) in
    (r, (set_app a (fst s), w)).

(** [for _ in range(n): body] *)
Fixpoint for_range (n : nat) (body : Method t unit) : Method t unit :=
  match n with
  | O => ret tt
  | S n' => body ;; for_range n' body
  end.

(** Line 145. *)
Definition API_URL : string :=
  "https://your-api-id.execute-api.us-east-1.amazonaws.com/dev".

(** The character written [\n] in the source. *)
Definition newline : string := String (Ascii.ascii_of_nat 10) EmptyString.

Definition banner (title : string) : string :=
  (newline ++ "========== " ++ title ++ " ==========")%string.

(** Lines 150-166. *)
Definition script : Method t unit :=
  print (banner "STARTING NORMAL OPERATIONS") ;;
  for_range 3
    (on_app ECommerceApp.view_product ;;
     on_app ECommerceApp.load_reviews ;;
     io (time_sleep 1)) ;;
  print (banner "STARTING CHAOS / DEGRADATION TEST") ;;
  on_app ChaosMonkey.inject_load_spike ;;
  on_app ECommerceApp.view_product ;;
  on_app ECommerceApp.load_reviews ;;
  on_app ECommerceApp.load_recommendations ;;
  print (banner "TESTING RETRY WITH BACKOFF") ;;
  on_app ChaosMonkey.resolve_load_spike ;;
  on_app ECommerceApp.load_recommendations.

(** Lines 143-166, run in world [w]: the application is built on
    [API_URL], then the script runs. *)
Definition main (w : World) : Res unit * (t * World) :=
  script ({| app := ECommerceApp.init API_URL; stdout := [] |}, w).

(** The three URLs the application can request. *)
Definition healthy_url : string := (API_URL ++ "/healthy")%string.
Definition unreliable_url : string := (API_URL ++ "/unreliable")%string.
Definition slow_url : string := (API_URL ++ "/slow")%string.

(** What a stretch of the script does, as far as the properties below go:
    the URLs requested, the sleeps, the texts printed, and the last value
    given to [system_load], if any. *)
Record Effect : Type := {
  sent : list string;
  napped : list Q;
  printed : list string;
  load_set : option Z
}.

Definition nothing : Effect :=
  {| sent := []; napped := []; printed := []; load_set := None |}.

(** The effect of one stretch followed by another. *)
Definition and_then (e1 e2 : Effect) : Effect :=
  {| sent := sent e1 ++ sent e2;
     napped := napped e1 ++ napped e2;
     printed := printed e1 ++ printed e2;
     load_set := match load_set e2 with
                 | Some load => Some load
                 | None => load_set e1
                 end |}.

(** [s'] is [s] after a stretch of effect [e]: nothing else was requested,
    slept or printed, no random number was drawn, and the base URL is the
    same. *)
Definition Step (e : Effect) (s s' : t * World) : Prop :=
  requests (snd s') = requests (snd s) ++ sent e /\
  slept (snd s') = slept (snd s) ++ napped e /\
  draws (snd s') = draws (snd s) /\
  stdout (fst s') = stdout (fst s) ++ printed e /\
  ECommerceApp.system_load (app (fst s')) =
    match load_set e with
    | Some load => load
    | None => ECommerceApp.system_load (app (fst s))
    end /\
  ECommerceApp.base_url (app (fst s')) = ECommerceApp.base_url (app (fst s)).

(** [m], started on an application built on [API_URL], returns normally
    with an effect that satisfies [E]. *)
Definition runs (m : Method t unit) (E : Effect -> Prop) : Prop :=
  forall s,
    ECommerceApp.base_url (app (fst s)) = API_URL ->
    exists s' e, m s = (Ok tt, s') /\ E e /\ Step e s s'.

End Main.

(** ** lambda_api.py: the three handlers *)

Module LambdaApi.

(** The values of the dictionaries the handlers serialise: strings, and the
    float [round(x, ndigits)], kept as the call that produces it. *)
Inductive Value : Type :=
| Str (s : string)
| Round (x : Q) (ndigits : Z).

Definition Dict : Type := list (string * Value).

(** The string [json.dumps(d)], kept as the dictionary it serialises. *)
Inductive Json : Type :=
| dumps (d : Dict).

(** The dictionary a handler returns. *)
Record Result : Type := {
  statusCode : Z;
  headers : list (string * string);
  body : Json
}.

(** The process a handler runs in: [generated n] is what the [n]-th call
    into the [random] module returns, [calls] counts these calls, and [naps]
    are the arguments of [time.sleep], oldest first. *)
Record Runtime : Type := {
  generated : nat -> Q;
  calls : nat;
  naps : list Q
}.

(** [random.random()] and [random.uniform(a, b)]: the next value of the
    generator. *)
Definition random_next (rt : Runtime) : Q * Runtime :=
  (generated rt (calls rt),
   {| generated := generated rt; calls := S (calls rt); naps := naps rt |}).

(** [time.sleep(seconds)] *)
Definition sleep (seconds : Q) (rt : Runtime) : Runtime :=
  {| generated := generated rt; calls := calls rt; naps := naps rt ++ [seconds] |}.

Definition json_headers : list (string * string) :=
  [("Content-Type", "application/json")]%string.

(** [healthy_handler], lines 10-19. *)
Definition healthy_handler {E C} (event : E) (context : C) (rt : Runtime)
  : Result * Runtime :=
  ({| statusCode := 200;
      headers := json_headers;
      body := dumps [("status", Str "success");
                     ("message", Str "Critical data retrieved successfully.")]%string |},
   rt).

(** [unreliable_handler], lines 21-38. *)
Definition unreliable_handler {E C} (event : E) (context : C) (rt : Runtime)
  : Result * Runtime :=
  let (x, rt1) := random_next rt in
  if Qgt_bool (1 # 2) x then
    ({| statusCode := 500;
        headers := json_headers;
        body := dumps [("error",
                        Str "Internal Server Error! The database is on fire.")]%string |},
     rt1)
  else
    ({| statusCode := 200;
        headers := json_headers;
        body := dumps [("status", Str "success");
                       ("message", Str "User reviews loaded (you got lucky).")]%string |},
     rt1).

(** [slow_handler], lines 40-56. *)
Definition slow_handler {E C} (event : E) (context : C) (rt : Runtime)
  : Result * Runtime :=
  let (delay, rt1) := random_next rt in
  let rt2 := sleep delay rt1 in
  ({| statusCode := 200;
      headers := json_headers;
      body := dumps [("status", Str "success");
                     ("message", Str "Personalized recommendations generated.");
                     ("latency_seconds", Round delay 2)]%string |},
   rt2).

(** [d[key]] found or not. *)
Fixpoint lookup (key : string) (d : Dict) : option Value :=
  match d with
  | [] => None
  | (k, v) :: rest => if String.eqb k key then Some v else lookup key rest
  end.

Definition body_dict (r : Result) : Dict :=
  match body r with dumps d => d end.

End LambdaApi.

(** * Lemmas *)

Lemma Qgt_bool_true a b : Qgt_bool a b = true <-> (b < a)%Q.
Proof.
  unfold Qgt_bool. rewrite negb_true_iff, <- not_true_iff_false, Qle_bool_iff.
  split; [apply Qnot_le_lt | apply Qlt_not_le].
Qed.

Lemma Qgt_bool_false a b : Qgt_bool a b = false <-> (a <= b)%Q.
Proof.
  unfold Qgt_bool. rewrite negb_false_iff. apply Qle_bool_iff.
Qed.

(** * Properties of the circuit breaker *)

Module CircuitBreakerFacts.
Import CircuitBreaker.

#[local] Arguments Qgt_bool : simpl never.
#[local] Arguments Qminus : simpl never.
#[local] Arguments Z.leb : simpl never.
#[local] Arguments Z.add : simpl never.

Ltac run_method :=
  unfold call, attempt, on_exception, gate, bind, try_except, getattr,
    setattr, io, raise, ret, logging, time_time; simpl.

Lemma gate_not_open self w :
  state self <> OPEN -> gate (self, w) = (Ok tt, (self, w)).
Proof.
  intros H. run_method. destruct (state self); [reflexivity | congruence | reflexivity].
Qed.

Lemma gate_open_wait self w last :
  state self = OPEN -> last_failure_time self = Some last ->
  (clock w (clock_reads w) - last <= recovery_timeout self)%Q ->
  gate (self, w) = (Raise CircuitBreakerIsOpen, (self, failed_fast w)).
Proof.
  intros Hs Hl Hle. apply Qgt_bool_false in Hle.
  run_method. rewrite Hs. simpl. rewrite Hl. simpl. rewrite Hle. reflexivity.
Qed.

Lemma gate_open_probe self w last :
  state self = OPEN -> last_failure_time self = Some last ->
  (recovery_timeout self < clock w (clock_reads w) - last)%Q ->
  gate (self, w) = (Ok tt, (set_state HALF_OPEN self, probing w)).
Proof.
  intros Hs Hl Hlt. apply Qgt_bool_true in Hlt.
  run_method. rewrite Hs. simpl. rewrite Hl. simpl. rewrite Hlt. reflexivity.
Qed.

Lemma gate_open_unset self w :
  state self = OPEN -> last_failure_time self = None ->
  exists d, gate (self, w) = (Raise (TypeError d), (self, snd (time_time w))).
Proof.
  intros Hs Hl. eexists. run_method. rewrite Hs. simpl. rewrite Hl. reflexivity.
Qed.

Lemma on_exception_eq e self w :
  on_exception e (self, w) =
  (Raise e, (tripped (clock w (clock_reads w)) self, handled self w)).
Proof.
  run_method. unfold tripped, handled. simpl.
  destruct (failure_threshold self <=? failure_count self + 1); reflexivity.
Qed.

Lemma attempt_success func self w response w1 :
  func w = (Ok response, w1) -> status_code response < 500 ->
  attempt func (self, w) = (Ok response, (closed self, w1)).
Proof.
  intros Hf Hs. unfold attempt, try_except, bind, io. simpl. rewrite Hf.
  destruct (Z.leb_spec 500 (status_code response)); [lia | reflexivity].
Qed.

Lemma attempt_failure func self w r w1 e :
  func w = (r, w1) -> failure_of r = Some e ->
  attempt func (self, w) =
  (Raise e, (tripped (clock w1 (clock_reads w1)) self, handled self w1)).
Proof.
  intros Hf He. rewrite <- on_exception_eq.
  unfold attempt, try_except, bind, io. simpl. rewrite Hf.
  destruct r as [response | e']; simpl in He.
  - destruct (500 <=? status_code response); [| discriminate].
    injection He as <-. reflexivity.
  - injection He as <-. reflexivity.
Qed.

Lemma call_eq func self w :
  call func (self, w) =
  match gate (self, w) with
  | (Ok _, s1) => attempt func s1
  | (Raise e, s1) => (Raise e, s1)
  end.
Proof. reflexivity. Qed.

Lemma attempt_cases func self w :
  (exists e, failure_of (fst (func w)) = Some e /\
     attempt func (self, w) =
       (Raise e, (tripped (clock (snd (func w)) (clock_reads (snd (func w)))) self,
                  handled self (snd (func w))))) \/
  (exists response, fst (func w) = Ok response /\ status_code response < 500 /\
     attempt func (self, w) = (Ok response, (closed self, snd (func w)))).
Proof.
  destruct (func w) as [r w1] eqn:Hf. simpl.
  destruct (failure_of r) as [e |] eqn:He.
  - left. exists e. split; [reflexivity |]. now apply attempt_failure with (r := r).
  - right. destruct r as [response | e]; [| discriminate]. simpl in He.
    destruct (Z.leb_spec 500 (status_code response)); [discriminate |].
    exists response. repeat split; [assumption |]. now apply attempt_success.
Qed.

Lemma Inv_init threshold timeout : Inv threshold timeout (init threshold timeout).
Proof. split; simpl; try congruence; lia. Qed.

Lemma Inv_closed threshold timeout self :
  Inv threshold timeout self -> Inv threshold timeout (closed self).
Proof. intros [? ? ? ? ? ?]. split; simpl; try congruence; lia. Qed.

Lemma Inv_tripped threshold timeout now self :
  Inv threshold timeout self -> Inv threshold timeout (tripped now self).
Proof.
  intros [Ht Hr Hc Hl Hn Hz]. unfold tripped.
  destruct (Z.leb_spec (failure_threshold self) (failure_count self + 1));
    split; simpl; try congruence; try lia.
  intros Hs. specialize (Hn Hs). lia.
Qed.

Lemma Inv_half_open threshold timeout self :
  Inv threshold timeout self -> state self = OPEN ->
  Inv threshold timeout (set_state HALF_OPEN self).
Proof.
  intros [Ht Hr Hc Hl Hn Hz] Hs.
  assert (state self <> CLOSED) by congruence.
  split; simpl; auto; congruence.
Qed.

(** Lines 24-30 leave the breaker as it was, or move it from OPEN to
    HALF_OPEN. *)
Lemma gate_cases self w :
  (fst (snd (gate (self, w))) = self /\
     (state self = OPEN -> is_raise (fst (gate (self, w))))) \/
  (state self = OPEN /\ gate (self, w) = (Ok tt, (set_state HALF_OPEN self, probing w))).
Proof.
  destruct (state self) eqn:Hs;
    try (left; rewrite gate_not_open by congruence; split; [reflexivity | discriminate]).
  destruct (last_failure_time self) as [last |] eqn:Hl.
  - destruct (Qlt_le_dec (recovery_timeout self) (clock w (clock_reads w) - last)).
    + right. split; [reflexivity |]. now apply gate_open_probe with (last := last).
    + left. rewrite gate_open_wait with (last := last) by assumption.
      split; [reflexivity | intros _; exact I].
  - left. destruct (gate_open_unset self w Hs Hl) as [d ->].
    split; [reflexivity | intros _; exact I].
Qed.

Lemma Inv_gate threshold timeout self w :
  Inv threshold timeout self -> Inv threshold timeout (fst (snd (gate (self, w)))).
Proof.
  intros HI. destruct (gate_cases self w) as [[-> _] | [Hs ->]]; [assumption |].
  now apply Inv_half_open.
Qed.

Lemma Inv_attempt threshold timeout func self w :
  Inv threshold timeout self ->
  Inv threshold timeout (fst (snd (attempt func (self, w)))).
Proof.
  intros HI.
  destruct (attempt_cases func self w) as [(e & _ & ->) | (response & _ & _ & ->)]; simpl.
  - now apply Inv_tripped.
  - now apply Inv_closed.
Qed.

Lemma Inv_call threshold timeout func self w :
  Inv threshold timeout self ->
  Inv threshold timeout (fst (snd (call func (self, w)))).
Proof.
  intros HI. rewrite call_eq. pose proof (Inv_gate _ _ self w HI) as HG.
  destruct (gate (self, w)) as [[[] | e] [self1 w1]]; simpl in *.
  - now apply Inv_attempt.
  - assumption.
Qed.

Lemma reachable_Inv threshold timeout self :
  reachable threshold timeout self -> Inv threshold timeout self.
Proof.
  induction 1.
  - apply Inv_init.
  - now apply Inv_gate.
  - now apply Inv_call.
Qed.

(** A call that raises leaves the breaker OPEN, unless it was CLOSED and one
    more failure does not reach the threshold. *)
Lemma raising_call threshold timeout func self w :
  Inv threshold timeout self ->
  is_raise (fst (call func (self, w))) ->
  let self' := fst (snd (call func (self, w))) in
  state self' = OPEN \/
  (state self = CLOSED /\ state self' = CLOSED /\
   failure_count self' = failure_count self + 1).
Proof.
  intros HI. rewrite call_eq.
  assert (Hstep : forall self1 w1,
             Inv threshold timeout self1 -> state self1 = state self \/ state self1 = HALF_OPEN ->
             state self1 <> OPEN ->
             is_raise (fst (attempt func (self1, w1))) ->
             state (fst (snd (attempt func (self1, w1)))) = OPEN \/
             (state self = CLOSED /\ state (fst (snd (attempt func (self1, w1)))) = CLOSED /\
              failure_count (fst (snd (attempt func (self1, w1)))) = failure_count self1 + 1)).
  { intros self1 w1 HI1 Hst Hno.
    destruct (attempt_cases func self1 w1) as [(e & _ & ->) | (response & _ & _ & ->)];
      simpl; [intros _ | intros []].
    unfold tripped.
    destruct (Z.leb_spec (failure_threshold self1) (failure_count self1 + 1)); simpl.
    - now left.
    - destruct (state self1) eqn:Hs1.
      + right. destruct Hst as [Hst | Hst]; [| discriminate]. auto.
      + congruence.
      + pose proof (inv_tripped _ _ _ HI1) as Hn. pose proof (inv_threshold _ _ _ HI1).
        rewrite Hs1 in Hn. assert (threshold <= failure_count self1) by (apply Hn; discriminate).
        lia. }
  destruct (gate_cases self w) as [[Heq Hopen] | [Hs Hg]].
  - destruct (gate (self, w)) as [[[] | e] [self1 w1]] eqn:Hg; simpl in *; subst self1.
    + apply Hstep; auto.
    + intros _. destruct (state self) eqn:Hs; [| now left |];
        rewrite gate_not_open in Hg by congruence; discriminate.
  - rewrite Hg. intros Hr.
    destruct (Hstep (set_state HALF_OPEN self) (probing w)) as [Ho | (Hc & _)]; auto.
    + now apply Inv_half_open.
    + discriminate.
    + congruence.
Qed.

Lemma raising_calls threshold timeout funcs :
  forall self w results self' w',
    Inv threshold timeout self ->
    calls funcs (self, w) = (results, (self', w')) ->
    Forall is_raise results ->
    Inv threshold timeout self' /\
    (state self' = OPEN \/
     (failure_count self' = failure_count self + Z.of_nat (List.length funcs) /\
      state self' = state self /\ (funcs = [] \/ state self = CLOSED))).
Proof.
  induction funcs as [| func rest IH]; intros self w results self' w' HI Hc Hr.
  - simpl in Hc. injection Hc as <- <- <-. split; [assumption |]. right. simpl.
    repeat split; auto. lia.
  - simpl in Hc.
    pose proof (Inv_call _ _ func self w HI) as HI1.
    pose proof (raising_call _ _ func self w HI) as Hstep.
    destruct (call func (self, w)) as [r [self1 w1]]. simpl in *.
    destruct (calls rest (self1, w1)) as [rs [self2 w2]] eqn:Hrest.
    injection Hc as <- <- <-. inversion Hr as [| ? ? Hr1 Hrs]; subst.
    destruct (IH _ _ _ _ _ HI1 Hrest Hrs) as [HI2 Hend]. split; [assumption |].
    destruct (Hstep Hr1) as [Ho | (Hs & Hs1 & Hc1)].
    + left. destruct Hend as [? | (_ & -> & _)]; assumption.
    + destruct Hend as [? | (Hc2 & Hs2 & _)]; [now left |]. right.
      repeat split; [lia | congruence | now right].
Qed.


(** ** The breaker trips and fails fast *)

(** C1.  Take a breaker with a positive [failure_threshold] N in any
    reachable state.  After N consecutive calls that all raised, its state is
    OPEN and [last_failure_time] is set; a further call, made while
    [time.time() - last_failure_time] is not greater than [recovery_timeout],
    raises the exception of line 30 (the specification's CircuitOpenError),
    leaves the breaker as it is and sends no request: whatever [func] is, the
    world only gains one clock read and one log record. *)
Theorem breaker_trips_then_fails_fast
    threshold timeout self funcs w results self' w' :
  0 < threshold ->
  reachable threshold timeout self ->
  List.length funcs = Z.to_nat threshold ->
  calls funcs (self, w) = (results, (self', w')) ->
  Forall is_raise results ->
  state self' = OPEN /\
  exists last,
    last_failure_time self' = Some last /\
    forall func w2,
      (clock w2 (clock_reads w2) - last <= timeout)%Q ->
      call func (self', w2) = (Raise CircuitBreakerIsOpen, (self', failed_fast w2)) /\
      kind_of CircuitBreakerIsOpen = CircuitOpenError /\
      requests (failed_fast w2) = requests w2.
Proof.
  intros Hpos Hreach Hlen Hcalls Hraise.
  apply reachable_Inv in Hreach.
  destruct (raising_calls _ _ _ _ _ _ _ _ Hreach Hcalls Hraise) as [HI Hend].
  assert (Hopen : state self' = OPEN).
  { destruct Hend as [? | (Hc & Hs & Hf)]; [assumption | exfalso].
    destruct Hf as [-> | Hclosed]; [simpl in Hlen; lia |].
    pose proof (inv_closed _ _ _ HI Hpos) as Hlt. pose proof (inv_count _ _ _ Hreach).
    rewrite Hs in Hlt. specialize (Hlt Hclosed). lia. }
  split; [assumption |].
  destruct (last_failure_time self') as [last |] eqn:Hlast.
  - exists last. split; [reflexivity |]. intros func w2 Hle.
    rewrite call_eq, gate_open_wait with (last := last); auto.
    rewrite (inv_timeout _ _ _ HI). assumption.
  - exfalso. apply (inv_time _ _ _ HI); [congruence | assumption].
Qed.

(** ** What a failed call does *)

(** C2.  Take a reachable breaker and a call that gets past lines 24-30 and
    whose operation fails: it raises [e], or returns a status of 500 or more,
    for which [e] is the [ServerError] of line 35.  Then the call raises [e]
    from a breaker whose [failure_count] is one more, whose
    [last_failure_time] is the [time.time()] read by the handler, and whose
    state is OPEN exactly when the new count has reached the threshold; below
    the threshold the state is the one the call started in. *)
Theorem failed_call_counts_and_reraises
    threshold timeout self func w self1 w1 r w2 e :
  reachable threshold timeout self ->
  gate (self, w) = (Ok tt, (self1, w1)) ->
  func w1 = (r, w2) ->
  failure_of r = Some e ->
  exists self',
    call func (self, w) = (Raise e, (self', handled self w2)) /\
    failure_count self' = failure_count self + 1 /\
    last_failure_time self' = Some (clock w2 (clock_reads w2)) /\
    (state self' = OPEN <-> failure_threshold self <= failure_count self') /\
    (failure_count self' < failure_threshold self -> state self' = state self) /\
    failure_threshold self' = failure_threshold self /\
    recovery_timeout self' = recovery_timeout self.
Proof.
  intros Hreach Hg Hf He. apply reachable_Inv in Hreach.
  exists (tripped (clock w2 (clock_reads w2)) self1).
  rewrite call_eq, Hg, (attempt_failure func self1 w1 r w2 e Hf He).
  destruct (gate_cases self w) as [[Heq Hopen] | [Hs Hg']].
  - rewrite Hg in Heq, Hopen. simpl in Heq, Hopen. subst self1.
    split; [reflexivity |]. unfold tripped.
    destruct (Z.leb_spec (failure_threshold self) (failure_count self + 1));
      simpl; repeat split; auto; try lia; congruence.
  - rewrite Hg in Hg'. injection Hg' as -> ->.
    pose proof (inv_tripped _ _ _ Hreach) as Hn. pose proof (inv_threshold _ _ _ Hreach) as Ht.
    assert (threshold <= failure_count self) by (apply Hn; congruence).
    unfold handled, tripped. simpl.
    destruct (Z.leb_spec (failure_threshold self) (failure_count self + 1)); [| lia].
    simpl. repeat split; auto; try lia.
Qed.

(** ** Probe and recovery *)

(** C3.  Take any breaker and a call of [requests.get] through it that is
    attempted: the breaker is not OPEN, or it is OPEN and more than
    [recovery_timeout] has elapsed since [last_failure_time].  Lines 24-30
    return, having moved an OPEN breaker to HALF_OPEN; the call then sends
    exactly one request; and if that request returns a status below 500, the
    call returns that response from a breaker with [failure_count] 0 and
    state CLOSED. *)
Theorem probe_once_and_success_closes self url w :
  (state self = OPEN ->
   exists last, last_failure_time self = Some last /\
     (recovery_timeout self < clock w (clock_reads w) - last)%Q) ->
  exists self1 w1,
    gate (self, w) = (Ok tt, (self1, w1)) /\
    (state self = OPEN -> self1 = set_state HALF_OPEN self) /\
    (state self <> OPEN -> self1 = self) /\
    call (requests_get url) (self, w) = attempt (requests_get url) (self1, w1) /\
    requests (snd (snd (call (requests_get url) (self, w)))) = requests w ++ [url] /\
    forall response,
      http w url (List.length (requests w)) = Ok response ->
      status_code response < 500 ->
      exists w',
        call (requests_get url) (self, w) = (Ok response, (closed self, w')) /\
        failure_count (closed self) = 0 /\
        state (closed self) = CLOSED.
Proof.
  intros Hadm.
  assert (Hg : exists self1 w1,
             gate (self, w) = (Ok tt, (self1, w1)) /\
             (state self = OPEN -> self1 = set_state HALF_OPEN self) /\
             (state self <> OPEN -> self1 = self) /\
             http w1 = http w /\ requests w1 = requests w).
  { destruct (state self) eqn:Hs.
    - exists self, w. rewrite gate_not_open by congruence.
      repeat split; auto; discriminate.
    - destruct (Hadm eq_refl) as (last & Hl & Hlt).
      exists (set_state HALF_OPEN self), (probing w).
      rewrite gate_open_probe with (last := last) by assumption.
      repeat split; auto; congruence.
    - exists self, w. rewrite gate_not_open by congruence.
      repeat split; auto; discriminate. }
  destruct Hg as (self1 & w1 & Hg & Ho & Hn & Hh & Hr).
  exists self1, w1. rewrite call_eq, Hg.
  assert (Hclosed : closed self1 = closed self).
  { destruct (state self) eqn:Hs;
      [rewrite Hn by congruence | rewrite Ho by reflexivity | rewrite Hn by congruence];
      reflexivity. }
  repeat split; auto.
  - destruct (attempt_cases (requests_get url) self1 w1)
      as [(e & _ & ->) | (response & _ & _ & ->)]; simpl.
    + unfold handled. destruct (_ <=? _); simpl; now rewrite Hr.
    + now rewrite Hr.
  - intros response Hok Hlt.
    exists (snd (requests_get url w1)). split; [| split; reflexivity].
    rewrite <- Hclosed. apply attempt_success; [| assumption].
    unfold requests_get. rewrite Hh, Hr, Hok. reflexivity.
Qed.

(** ** Invariants *)

(** C9.  With a positive threshold, every reachable breaker that is OPEN has
    [last_failure_time] set, and every reachable breaker that is CLOSED has
    [failure_count < failure_threshold]. *)
Theorem reachable_open_has_time_closed_below_threshold threshold timeout self :
  0 < threshold ->
  reachable threshold timeout self ->
  (state self = OPEN -> exists last, last_failure_time self = Some last) /\
  (state self = CLOSED -> failure_count self < failure_threshold self).
Proof.
  intros Hpos Hreach. apply reachable_Inv in Hreach. split; intros Hs.
  - destruct (last_failure_time self) as [last |] eqn:Hl; [now exists last |].
    exfalso. apply (inv_time _ _ _ Hreach); [congruence | assumption].
  - rewrite (inv_threshold _ _ _ Hreach). now apply (inv_closed _ _ _ Hreach).
Qed.

(** C10.  Every reachable breaker that is OPEN or HALF_OPEN has
    [failure_count >= failure_threshold]: line 27 does not touch the counter.
    Hence a call on such a breaker that raises, in particular a failed probe,
    leaves it OPEN. *)
Theorem reachable_open_at_threshold_probe_failure_reopens threshold timeout self :
  reachable threshold timeout self ->
  state self = OPEN \/ state self = HALF_OPEN ->
  failure_threshold self <= failure_count self /\
  (forall func w r w1 e,
      state self = HALF_OPEN ->
      func w = (r, w1) -> failure_of r = Some e ->
      exists self' w',
        call func (self, w) = (Raise e, (self', w')) /\
        state self' = OPEN /\ failure_count self' = failure_count self + 1) /\
  (forall func w,
      is_raise (fst (call func (self, w))) ->
      state (fst (snd (call func (self, w)))) = OPEN).
Proof.
  intros Hreach Hs. apply reachable_Inv in Hreach.
  assert (Hnc : state self <> CLOSED) by (destruct Hs; congruence).
  pose proof (inv_tripped _ _ _ Hreach Hnc) as Hle.
  pose proof (inv_threshold _ _ _ Hreach) as Ht.
  split; [lia | split].
  - intros func w r w1 e Hh Hf He.
    exists (tripped (clock w1 (clock_reads w1)) self), (handled self w1).
    rewrite call_eq, gate_not_open by congruence.
    rewrite (attempt_failure func self w r w1 e Hf He).
    split; [reflexivity |]. unfold tripped.
    destruct (Z.leb_spec (failure_threshold self) (failure_count self + 1)); [| lia].
    split; reflexivity.
  - intros func w Hr.
    destruct (raising_call _ _ func self w Hreach Hr) as [? | (Hc & _)];
      [assumption | congruence].
Qed.

(** ** The theorems above on concrete runs *)

Import Examples.

(** The end-to-end scenario of the specification, with threshold 2 and
    timeout 5: two 500s trip the breaker, the third call fails fast, the
    fourth call, 6 seconds after the last failure, probes, succeeds and
    closes the breaker.  Three requests are sent in all. *)
Example end_to_end_scenario :
  let out :=
    calls [get_u; get_u; get_u; get_u]
      (init 2 5, start two_errors_then_up scenario_clock quarter) in
  fst out =
    [Raise (ServerError 500); Raise (ServerError 500); Raise CircuitBreakerIsOpen;
     Ok {| status_code := 200; json_message := Ok "ok"%string |}] /\
  state (fst (snd out)) = CLOSED /\
  failure_count (fst (snd out)) = 0 /\
  requests (snd (snd out)) = ["u"; "u"; "u"]%string.
Proof. repeat split. Qed.

Example state_after_two_errors :
  let out :=
    calls [get_u; get_u]
      (init 2 5, start two_errors_then_up scenario_clock quarter) in
  state (fst (snd out)) = OPEN /\
  failure_count (fst (snd out)) = 2 /\
  last_failure_time (fst (snd out)) = Some 1%Q.
Proof. repeat split. Qed.

Lemma after_two_timeouts_reachable : reachable 2 5 (fst after_two_timeouts).
Proof.
  exact (reachable_call 2 5 _ get_u
           (snd (snd (call get_u (init 2 5, start down ticking quarter))))
           (reachable_call 2 5 (init 2 5) get_u (start down ticking quarter)
              (reachable_init 2 5))).
Qed.

Lemma breaker_trips_then_fails_fast_witness :
  let out := calls [get_u; get_u] (init 2 5, start down ticking quarter) in
  let self' := fst (snd out) in
  state self' = OPEN /\
  exists last,
    last_failure_time self' = Some last /\
    forall func w2,
      (clock w2 (clock_reads w2) - last <= 5)%Q ->
      call func (self', w2) = (Raise CircuitBreakerIsOpen, (self', failed_fast w2)) /\
      kind_of CircuitBreakerIsOpen = CircuitOpenError /\
      requests (failed_fast w2) = requests w2.
Proof.
  intros out self'.
  apply (breaker_trips_then_fails_fast 2 5 (init 2 5) [get_u; get_u]
           (start down ticking quarter) (fst out) self' (snd (snd out))).
  - lia.
  - apply reachable_init.
  - reflexivity.
  - reflexivity.
  - vm_compute. repeat constructor.
Defined.

Lemma failed_call_counts_and_reraises_witness :
  let self := init 2 5 in
  let w := start erroring ticking quarter in
  let w2 := snd (get_u w) in
  exists self',
    call get_u (self, w) = (Raise (ServerError 500), (self', handled self w2)) /\
    failure_count self' = failure_count self + 1 /\
    last_failure_time self' = Some (clock w2 (clock_reads w2)) /\
    (state self' = OPEN <-> failure_threshold self <= failure_count self') /\
    (failure_count self' < failure_threshold self -> state self' = state self) /\
    failure_threshold self' = failure_threshold self /\
    recovery_timeout self' = recovery_timeout self.
Proof.
  intros self w w2.
  apply (failed_call_counts_and_reraises 2 5 self get_u w self w
           (fst (get_u w)) w2 (ServerError 500)).
  - apply reachable_init.
  - reflexivity.
  - reflexivity.
  - reflexivity.
Defined.

Lemma probe_once_and_success_closes_witness :
  let self := tripped_at_0 in
  let w := start up leaping quarter in
  exists self1 w1,
    gate (self, w) = (Ok tt, (self1, w1)) /\
    (state self = OPEN -> self1 = set_state HALF_OPEN self) /\
    (state self <> OPEN -> self1 = self) /\
    call (requests_get "u") (self, w) = attempt (requests_get "u") (self1, w1) /\
    requests (snd (snd (call (requests_get "u") (self, w)))) = requests w ++ ["u"%string] /\
    forall response,
      http w "u" (List.length (requests w)) = Ok response ->
      status_code response < 500 ->
      exists w',
        call (requests_get "u") (self, w) = (Ok response, (closed self, w')) /\
        failure_count (closed self) = 0 /\
        state (closed self) = CLOSED.
Proof.
  intros self w.
  apply (probe_once_and_success_closes self "u" w).
  intros _. exists 0%Q. split; reflexivity.
Defined.

Lemma reachable_open_has_time_closed_below_threshold_witness :
  let self := fst after_two_timeouts in
  (state self = OPEN -> exists last, last_failure_time self = Some last) /\
  (state self = CLOSED -> failure_count self < failure_threshold self).
Proof.
  intros self.
  apply (reachable_open_has_time_closed_below_threshold 2 5 self).
  - lia.
  - apply after_two_timeouts_reachable.
Defined.

Lemma reachable_open_at_threshold_probe_failure_reopens_witness :
  let self := probing_after_two_timeouts in
  failure_threshold self <= failure_count self /\
  (forall func w r w1 e,
      state self = HALF_OPEN ->
      func w = (r, w1) -> failure_of r = Some e ->
      exists self' w',
        call func (self, w) = (Raise e, (self', w')) /\
        state self' = OPEN /\ failure_count self' = failure_count self + 1) /\
  (forall func w,
      is_raise (fst (call func (self, w))) ->
      state (fst (snd (call func (self, w)))) = OPEN).
Proof.
  intros self.
  apply (reachable_open_at_threshold_probe_failure_reopens 2 5 self).
  - apply reachable_gate, after_two_timeouts_reachable.
  - right. reflexivity.
Defined.

End CircuitBreakerFacts.

(** * Properties of the retry decorator *)

Module RetryFacts.
Import Retry.

#[local] Arguments Z.add : simpl never.
#[local] Arguments Z.ltb : simpl never.
#[local] Arguments Retry.delay : simpl never.
#[local] Arguments Qplus : simpl never.

Section Loop.

Variables (max_retries : Z) (base_delay max_delay : Q).
Variable func : option Z -> M World Response.

Local Open Scope py_scope.

Lemma loop_unfold retries :
  retries <= max_retries ->
  loop max_retries base_delay max_delay func retries =
  try_except_only is_request_exception
    (response <- func (Some 3) ;; ret (Some response))
    (fun e =>
       if max_retries <? retries + 1 then
         logging ERROR (MaxRetriesExhausted max_retries) ;; raise e
       else
         back_off max_retries base_delay max_delay (retries + 1) ;;
         loop max_retries base_delay max_delay func (retries + 1)).
Proof.
  intros Hle. rewrite loop_equation_1.
  destruct (Z_le_gt_dec retries max_retries); [reflexivity | lia].
Qed.

Lemma loop_done retries :
  max_retries < retries ->
  loop max_retries base_delay max_delay func retries = ret None.
Proof.
  intros Hlt. rewrite loop_equation_1.
  destruct (Z_le_gt_dec retries max_retries); [lia | reflexivity].
Qed.

End Loop.

Section Requests.

Variables (max_retries : Z) (base_delay max_delay : Q) (url : string).

Local Notation "'retry_loop'" := (loop max_retries base_delay max_delay (fun _ => requests_get url)).
Local Notation "'attempt_failed'" := (failed_attempt max_retries base_delay max_delay url).
Local Notation "'attempts_failed'" := (failed_attempts max_retries base_delay max_delay url).

Lemma loop_returns retries w response :
  retries <= max_retries ->
  http w url (List.length (requests w)) = Ok response ->
  retry_loop retries w = (Ok (Some response), snd (requests_get url w)).
Proof.
  intros Hle Hok. rewrite loop_unfold by assumption.
  unfold try_except_only, bind, requests_get. simpl. rewrite Hok. reflexivity.
Qed.

Lemma loop_propagates retries w e :
  retries <= max_retries ->
  http w url (List.length (requests w)) = Raise e ->
  is_request_exception e = false ->
  retry_loop retries w = (Raise e, snd (requests_get url w)).
Proof.
  intros Hle Hr He. rewrite loop_unfold by assumption.
  unfold try_except_only, bind, requests_get. simpl. rewrite Hr, He. reflexivity.
Qed.

Lemma loop_gives_up w e :
  http w url (List.length (requests w)) = Raise e ->
  is_request_exception e = true ->
  retry_loop max_retries w =
  (Raise e, snd (logging ERROR (MaxRetriesExhausted max_retries)
                   (snd (requests_get url w)))).
Proof.
  intros Hr He. rewrite loop_unfold by lia.
  unfold try_except_only, bind, requests_get. simpl. rewrite Hr, He.
  destruct (Z.ltb_spec max_retries (max_retries + 1)); [reflexivity | lia].
Qed.

Lemma loop_retries retries w e :
  retries < max_retries ->
  http w url (List.length (requests w)) = Raise e ->
  is_request_exception e = true ->
  retry_loop retries w = retry_loop (retries + 1) (attempt_failed retries w).
Proof.
  intros Hlt Hr He. rewrite loop_unfold by lia.
  unfold try_except_only, bind at 1, requests_get at 1. simpl. rewrite Hr, He.
  destruct (Z.ltb_spec max_retries (retries + 1)); [lia |].
  reflexivity.
Qed.

(** What one failed attempt changes in the world. *)
Lemma failed_attempt_world retries w :
  let w' := attempt_failed retries w in
  http w' = http w /\ uniform w' = uniform w /\
  requests w' = requests w ++ [url] /\
  draws w' = S (draws w) /\
  slept w' = slept w ++ [(delay base_delay max_delay (retries + 1) + uniform w (draws w))%Q].
Proof. repeat split. Qed.

Lemma failed_attempts_world n :
  forall retries w,
    let w' := attempts_failed n retries w in
    http w' = http w /\ uniform w' = uniform w /\
    requests w' = requests w ++ repeat url n /\
    draws w' = (draws w + n)%nat /\
    slept w' =
      slept w ++
      map (fun i => (delay base_delay max_delay (retries + Z.of_nat i + 1)
                     + uniform w (draws w + i))%Q) (seq 0 n).
Proof.
  induction n as [| n IH]; intros retries w; simpl.
  - rewrite !app_nil_r, Nat.add_0_r. repeat split.
  - destruct (IH (retries + 1) (attempt_failed retries w)) as (Hh & Hu & Hr & Hd & Hs).
    destruct (failed_attempt_world retries w) as (Hh1 & Hu1 & Hr1 & Hd1 & Hs1).
    rewrite Hh, Hu, Hr, Hd, Hs, Hh1, Hu1, Hr1, Hd1, Hs1.
    repeat split; auto.
    + rewrite <- app_assoc. reflexivity.
    + rewrite <- app_assoc. f_equal. simpl. f_equal.
      * f_equal; f_equal; lia.
      * rewrite <- seq_shift, map_map. apply map_ext. intros i.
        f_equal; f_equal; lia.
Qed.

Lemma fails_at_shift retries w i :
  fails_at url w (S i) -> fails_at url (attempt_failed retries w) i.
Proof.
  intros (e & He & Hr). exists e. split; [| assumption].
  destruct (failed_attempt_world retries w) as (-> & _ & -> & _).
  rewrite length_app. simpl. rewrite <- He. f_equal. lia.
Qed.

(** As long as the attempts fail with a request exception and retries are
    left, the loop goes on. *)
Lemma loop_failed_prefix n :
  forall retries w,
    retries + Z.of_nat n <= max_retries ->
    (forall i, (i < n)%nat -> fails_at url w i) ->
    retry_loop retries w = retry_loop (retries + Z.of_nat n) (attempts_failed n retries w).
Proof.
  induction n as [| n IH]; intros retries w Hle Hfail.
  - simpl. now rewrite Z.add_0_r.
  - destruct (Hfail 0%nat) as (e & He & Hr); [lia |].
    rewrite Nat.add_0_r in He.
    rewrite (loop_retries retries w e) by (auto; lia).
    rewrite IH.
    + simpl. f_equal. lia.
    + lia.
    + intros i Hi. apply fails_at_shift. apply Hfail. lia.
Qed.

(** The loop sends between one request and [max_retries + 1 - retries]
    requests, all to [url], and only appends to the sleeps. *)
Lemma loop_requests m :
  forall retries w,
    m = Z.to_nat (max_retries + 1 - retries) ->
    exists n extra,
      requests (snd (retry_loop retries w)) = requests w ++ repeat url n /\
      (n <= m)%nat /\ (retries <= max_retries -> (1 <= n)%nat) /\
      slept (snd (retry_loop retries w)) = slept w ++ extra.
Proof.
  induction m as [| m IH]; intros retries w Hm.
  - rewrite loop_done by lia. exists 0%nat, []. simpl.
    rewrite !app_nil_r. repeat split; lia.
  - assert (Hle : retries <= max_retries) by lia.
    destruct (http w url (List.length (requests w))) as [response | e] eqn:Hout.
    + rewrite (loop_returns retries w response) by assumption.
      exists 1%nat, []. simpl. rewrite app_nil_r. repeat split; lia.
    + destruct (is_request_exception e) eqn:He.
      * destruct (Z.eq_dec retries max_retries) as [-> | Hne].
        -- rewrite (loop_gives_up w e) by assumption.
           exists 1%nat, []. simpl. rewrite app_nil_r. repeat split; lia.
        -- rewrite (loop_retries retries w e) by (auto; lia).
           destruct (IH (retries + 1) (attempt_failed retries w)) as (n & extra & Hr & Hn & _ & Hs);
             [lia |].
           destruct (failed_attempt_world retries w) as (_ & _ & Hr1 & _ & Hs1).
           exists (S n),
             ((delay base_delay max_delay (retries + 1) + uniform w (draws w))%Q :: extra).
           rewrite Hr, Hs, Hr1, Hs1, <- !app_assoc.
           simpl. repeat split; lia.
      * rewrite (loop_propagates retries w e) by assumption.
        exists 1%nat, []. simpl. rewrite app_nil_r. repeat split; lia.
Qed.

End Requests.

(** ** The retry bound *)


(** ** The delay before a retry *)


(** A decorated function that raises anything but a request exception is
    called once, and the exception propagates at once. *)
Lemma wrapper_propagates max_retries base_delay max_delay func w e w1 :
  0 <= max_retries ->
  func (Some 3) w = (Raise e, w1) ->
  is_request_exception e = false ->
  exponential_backoff_retry max_retries base_delay max_delay func w = (Raise e, w1).
Proof.
  intros Hpos Hf He. unfold exponential_backoff_retry, wrapper.
  rewrite loop_unfold by assumption.
  unfold try_except_only, bind. rewrite Hf, He. reflexivity.
Qed.

(** ** The theorems above on concrete runs *)

Import Examples.

Lemma down_fails_at w i : http w = down -> fails_at "u" w i.
Proof. intros H. exists Timeout. rewrite H. split; reflexivity. Qed.





End RetryFacts.

(** * Properties of the application *)

Module ECommerceAppFacts.
Import ECommerceApp.

#[local] Arguments CircuitBreaker.call : simpl never.
#[local] Arguments Z.ltb : simpl never.

(** The decorated method never reaches [requests.get]: the wrapper passes
    [timeout=3] to a function that has no such parameter. *)
Lemma fetch_recommendations_with_retry_raises self w :
  exists detail,
    fetch_recommendations_with_retry (self, w) = (Raise (TypeError detail), (self, w)).
Proof.
  eexists. unfold fetch_recommendations_with_retry, bind, getattr, io. simpl.
  erewrite (RetryFacts.wrapper_propagates 3 1 8 (fetch_recommendations self) w);
    [reflexivity | lia | reflexivity | reflexivity].
Qed.

Lemma load_recommendations_eq self w :
  load_recommendations (self, w) =
  (Ok tt, (self, if 80 <? system_load self then shed w else hidden w)).
Proof.
  unfold load_recommendations, bind at 1, io at 1. simpl.
  unfold bind at 1, getattr at 1. simpl.
  destruct (80 <? system_load self).
  - reflexivity.
  - unfold try_except, bind at 1.
    destruct (fetch_recommendations_with_retry_raises self
                (set_log (log w ++ [(INFO, FetchingTier3)]) w)) as [detail ->].
    reflexivity.
Qed.

Lemma load_reviews_eq self w :
  load_reviews (self, w) =
  let '(r, (cb, w1)) :=
    CircuitBreaker.call (requests_get (base_url self ++ "/unreliable")%string)
      (unreliable_circuit_breaker self, snd (logging INFO FetchingTier2 w)) in
  let self' := set_unreliable_circuit_breaker cb self in
  match r with
  | Ok response =>
      match json_message response with
      | Ok message => (Ok tt, (self', snd (logging INFO (Success message) w1)))
      | Raise _ => (Ok tt, (self', snd (logging INFO FallbackActivated w1)))
      end
  | Raise _ => (Ok tt, (self', snd (logging INFO FallbackActivated w1)))
  end.
Proof.
  unfold load_reviews, bind, try_except, getattr, io, on_breaker, message_of. simpl.
  destruct (CircuitBreaker.call _ _) as [[response | e] [cb w1]]; simpl;
    [destruct (json_message response) |]; reflexivity.
Qed.

(** ** Load shedding *)

(** C6.  [load_recommendations] is shed exactly when [system_load > 80]: the
    records it adds to the log contain the load-shedding warning if and only
    if the load exceeds 80.  A shed call returns normally and leaves the
    application object, hence its circuit breaker, as it was; the world gains
    two log records and nothing else: no request, no sleep, no jitter draw,
    no clock read. *)
Theorem load_shedding_gate self w :
  exists added,
    log (snd (snd (load_recommendations (self, w)))) = log w ++ added /\
    (In (WARNING, LoadSheddingActive) added <-> 80 < system_load self) /\
    (80 < system_load self ->
     load_recommendations (self, w) = (Ok tt, (self, shed w)) /\
     requests (shed w) = requests w /\
     slept (shed w) = slept w /\
     draws (shed w) = draws w /\
     clock_reads (shed w) = clock_reads w).
Proof.
  rewrite load_recommendations_eq.
  destruct (Z.ltb_spec 80 (system_load self)) as [Hgt | Hle].
  - exists [(INFO, FetchingTier3); (WARNING, LoadSheddingActive)]. simpl.
    rewrite <- app_assoc. repeat split; auto.
  - exists [(INFO, FetchingTier3); (INFO, GracefulDegradation)]. simpl.
    rewrite <- app_assoc. split; [reflexivity |]. split; [| lia].
    split; [| lia]. intros [H | [H | []]]; discriminate.
Qed.

(** The decision has no memory: it follows the load that [ChaosMonkey] sets. *)
Lemma shed_after_inject_load_spike self w :
  let s1 := snd (ChaosMonkey.inject_load_spike (self, w)) in
  load_recommendations s1 = (Ok tt, (fst s1, shed (snd s1))).
Proof. simpl. rewrite load_recommendations_eq. reflexivity. Qed.

Lemma not_shed_after_resolve_load_spike self w :
  let s1 := snd (ChaosMonkey.resolve_load_spike (self, w)) in
  load_recommendations s1 = (Ok tt, (fst s1, hidden (snd s1))).
Proof. simpl. rewrite load_recommendations_eq. reflexivity. Qed.

(** ** Failures of tiers 2 and 3 stay inside *)

(** C7.  Whatever the transport, the clock and the breaker are,
    [load_reviews] and [load_recommendations] return normally.  The last log
    record of [load_reviews] is the success message or the fallback message;
    the last log record of [load_recommendations] is the success message, the
    graceful-degradation message or the load-shedding message. *)
Theorem tier2_tier3_never_raise self w :
  (fst (load_reviews (self, w)) = Ok tt /\
   exists earlier last,
     log (snd (snd (load_reviews (self, w)))) = earlier ++ [(INFO, last)] /\
     (last = FallbackActivated \/ exists message, last = Success message)) /\
  (fst (load_recommendations (self, w)) = Ok tt /\
   exists earlier last,
     log (snd (snd (load_recommendations (self, w)))) = earlier ++ [last] /\
     (last = (INFO, GracefulDegradation) \/ last = (WARNING, LoadSheddingActive) \/
      exists message, last = (INFO, Success message))).
Proof.
  split.
  - rewrite load_reviews_eq.
    destruct (CircuitBreaker.call _ _) as [[response | e] [cb w1]]; simpl.
    + destruct (json_message response) as [message | e]; simpl.
      * split; [reflexivity |]. exists (log w1), (Success message).
        split; [reflexivity |]. right. now exists message.
      * split; [reflexivity |]. exists (log w1), FallbackActivated.
        split; [reflexivity |]. now left.
    + split; [reflexivity |]. exists (log w1), FallbackActivated.
      split; [reflexivity |]. now left.
  - rewrite load_recommendations_eq. simpl. split; [reflexivity |].
    destruct (80 <? system_load self); simpl.
    + exists (log w ++ [(INFO, FetchingTier3)]), (WARNING, LoadSheddingActive).
      split; [reflexivity |]. right. now left.
    + exists (log w ++ [(INFO, FetchingTier3)]), (INFO, GracefulDegradation).
      split; [reflexivity |]. now left.
Qed.

(** ** Failures of tier 1 *)

(** C8, as the code has it.  When the request of [view_product] raises, or
    [response.json()['message']] raises on its response, [view_product]
    catches the exception, logs the CRITICAL record of line 96 and returns
    normally: one request was sent, nothing was retried and the application
    object is as it was. *)
Theorem tier1_failure_is_logged_not_raised self w e :
  (http w (base_url self ++ "/healthy")%string (List.length (requests w)) = Raise e \/
   exists response,
     http w (base_url self ++ "/healthy")%string (List.length (requests w)) = Ok response /\
     json_message response = Raise e) ->
  view_product (self, w) = (Ok tt, (self, alerted self w)) /\
  log (alerted self w) = log w ++ [(INFO, FetchingTier1); (CRITICAL, Tier1Failed)] /\
  requests (alerted self w) = requests w ++ [(base_url self ++ "/healthy")%string].
Proof.
  intros Hfail. split; [| split].
  - unfold view_product, bind at 1, io at 1. simpl.
    unfold try_except, bind, getattr, io, requests_get, message_of, alerted. simpl.
    destruct Hfail as [-> | (response & -> & ->)]; reflexivity.
  - unfold alerted. simpl. now rewrite <- app_assoc.
  - reflexivity.
Qed.

(** ** The theorems above on concrete runs *)

Import Examples.

Lemma tier1_failure_is_logged_not_raised_witness :
  let self := init "u" in
  let w := start down ticking quarter in
  view_product (self, w) = (Ok tt, (self, alerted self w)) /\
  log (alerted self w) = log w ++ [(INFO, FetchingTier1); (CRITICAL, Tier1Failed)] /\
  requests (alerted self w) = requests w ++ [(base_url self ++ "/healthy")%string].
Proof.
  intros self w.
  apply (tier1_failure_is_logged_not_raised self w Timeout).
  left. reflexivity.
Defined.

(** C8 as the specification states it fails: when the transport is down,
    the request of [view_product] raises [Timeout], and [view_product]
    returns normally to its caller. *)
Lemma view_product_absorbs_failure :
  let self := init "u" in
  let w := start down ticking quarter in
  http w (base_url self ++ "/healthy")%string (List.length (requests w)) = Raise Timeout /\
  fst (view_product (self, w)) = Ok tt /\
  ~ is_raise (fst (view_product (self, w))).
Proof.
  split; [reflexivity | split; [reflexivity |]]. intros H. exact H.
Qed.

End ECommerceAppFacts.

(** * Further properties of the circuit breaker *)

Module CircuitBreakerMore.
Import CircuitBreaker CircuitBreakerFacts Examples.

#[local] Arguments Z.leb : simpl never.
#[local] Arguments Z.add : simpl never.

(** The [except] handler sends nothing and never sleeps. *)
Lemma handled_world self w :
  requests (handled self w) = requests w /\
  slept (handled self w) = slept w /\
  draws (handled self w) = draws w /\
  http (handled self w) = http w.
Proof. unfold handled. destruct (_ <=? _); repeat split. Qed.

(** What a call through the breaker adds to the world: at most one
    request. *)
Lemma call_footprint url self w :
  exists reqs,
    (reqs = [] \/ reqs = [url]) /\
    requests (snd (snd (call (requests_get url) (self, w)))) = requests w ++ reqs /\
    slept (snd (snd (call (requests_get url) (self, w)))) = slept w /\
    draws (snd (snd (call (requests_get url) (self, w)))) = draws w /\
    http (snd (snd (call (requests_get url) (self, w)))) = http w.
Proof.
  rewrite call_eq.
  assert (Hatt : forall self1 w1,
             requests w1 = requests w -> slept w1 = slept w ->
             draws w1 = draws w -> http w1 = http w ->
             let out := attempt (requests_get url) (self1, w1) in
             requests (snd (snd out)) = requests w ++ [url] /\
             slept (snd (snd out)) = slept w /\
             draws (snd (snd out)) = draws w /\
             http (snd (snd out)) = http w).
  { intros self1 w1 Hr Hs Hd Hh.
    destruct (attempt_cases (requests_get url) self1 w1)
      as [(e & _ & ->) | (response & _ & _ & ->)]; cbn [fst snd].
    - destruct (handled_world self1 (snd (requests_get url w1))) as (-> & -> & -> & ->).
      simpl. rewrite Hr, Hs, Hd, Hh. repeat split.
    - simpl. rewrite Hr, Hs, Hd, Hh. repeat split. }
  destruct (gate_cases self w) as [[Heq Hopen] | [Hs Hg]].
  - destruct (gate (self, w)) as [[[] | e] [self1 w1]] eqn:Hg.
    + exists [url]. split; [now right |].
      destruct (state self) eqn:Hst; try (exfalso; exact (Hopen eq_refl));
        rewrite gate_not_open in Hg by congruence; injection Hg as <- <-;
        now apply Hatt.
    + exists []. split; [now left |]. rewrite app_nil_r.
      destruct (state self) eqn:Hst;
        try (rewrite gate_not_open in Hg by congruence; discriminate).
      destruct (last_failure_time self) as [last |] eqn:Hl.
      * destruct (Qlt_le_dec (recovery_timeout self) (clock w (clock_reads w) - last)).
        -- rewrite gate_open_probe with (last := last) in Hg by assumption. discriminate.
        -- rewrite gate_open_wait with (last := last) in Hg by assumption.
           injection Hg as <- <- <-. repeat split.
      * destruct (gate_open_unset self w Hst Hl) as [d Hd]. rewrite Hd in Hg.
        injection Hg as <- <- <-. repeat split.
  - rewrite Hg. exists [url]. split; [now right |]. now apply Hatt.
Qed.

(** ** What a returned response guarantees *)

(** X1.  Whatever the breaker and the operation, a call that returns (rather
    than raises) returns a response with a status below 500 and leaves the
    breaker CLOSED with [failure_count] 0.  The thresholds are untouched, and
    so is [last_failure_time]: a success does not clear the time of the last
    failure. *)
Theorem returned_response_is_below_500 func self w response self' w' :
  call func (self, w) = (Ok response, (self', w')) ->
  status_code response < 500 /\
  state self' = CLOSED /\
  failure_count self' = 0 /\
  failure_threshold self' = failure_threshold self /\
  recovery_timeout self' = recovery_timeout self /\
  last_failure_time self' = last_failure_time self.
Proof.
  rewrite call_eq. intros Hcall.
  assert (Hatt : forall self1 w1,
             attempt func (self1, w1) = (Ok response, (self', w')) ->
             status_code response < 500 /\ self' = closed self1).
  { intros self1 w1 Ha.
    destruct (attempt_cases func self1 w1) as [(e & _ & He) | (r & _ & Hlt & He)];
      rewrite He in Ha; [discriminate |].
    injection Ha as <- <- _. now split. }
  destruct (gate_cases self w) as [[Heq _] | [_ Hg]].
  - destruct (gate (self, w)) as [[[] | e] [self1 w1]]; [| discriminate].
    simpl in Heq. subst self1. destruct (Hatt _ _ Hcall) as [Hlt ->].
    repeat split; assumption.
  - rewrite Hg in Hcall. destruct (Hatt _ _ Hcall) as [Hlt ->].
    repeat split; assumption.
Qed.

Lemma returned_response_is_below_500_witness :
  let self := tripped_at_0 in
  let w := start up leaping quarter in
  let out := call get_u (self, w) in
  status_code {| status_code := 200; json_message := Ok "ok"%string |} < 500 /\
  state (fst (snd out)) = CLOSED /\
  failure_count (fst (snd out)) = 0 /\
  failure_threshold (fst (snd out)) = failure_threshold self /\
  recovery_timeout (fst (snd out)) = recovery_timeout self /\
  last_failure_time (fst (snd out)) = last_failure_time self.
Proof.
  intros self w out.
  apply (returned_response_is_below_500 get_u self w _ (fst (snd out)) (snd (snd out))).
  reflexivity.
Defined.

(** ** The breaker never retries *)

(** X2.  In every state of the breaker a call of [requests.get] through it
    sends one request or none; it never sleeps and draws no random number. *)
Theorem call_sends_at_most_one_request url self w :
  let w' := snd (snd (call (requests_get url) (self, w))) in
  (requests w' = requests w \/ requests w' = requests w ++ [url]) /\
  slept w' = slept w /\
  draws w' = draws w.
Proof.
  destruct (call_footprint url self w) as (reqs & [-> | ->] & Hr & Hs & Hd & _);
    simpl; rewrite Hr, Hs, Hd; [rewrite app_nil_r |]; auto.
Qed.

(** ** Failing fast does not postpone the probe *)

(** X3.  Take an OPEN breaker whose last failure was at [last], and any
    number of calls whose clock readings are all within [recovery_timeout] of
    [last].  Every one of them raises the exception of line 30 and the
    breaker is exactly as before: in particular [last_failure_time] is not
    refreshed by a rejected call.  The operations are not run; each call
    reads the clock once. *)
Theorem rejected_calls_leave_breaker_unchanged self last funcs w :
  state self = OPEN ->
  last_failure_time self = Some last ->
  (forall i, (i < List.length funcs)%nat ->
     (clock w (clock_reads w + i) - last <= recovery_timeout self)%Q) ->
  calls funcs (self, w) =
    (map (fun _ => Raise CircuitBreakerIsOpen) funcs,
     (self, Nat.iter (List.length funcs) failed_fast w)) /\
  requests (Nat.iter (List.length funcs) failed_fast w) = requests w /\
  clock_reads (Nat.iter (List.length funcs) failed_fast w) =
    (clock_reads w + List.length funcs)%nat.
Proof.
  intros Hs Hl. revert w.
  induction funcs as [| func rest IH]; intros w Hwin.
  - simpl. rewrite Nat.add_0_r. repeat split.
  - assert (Hnow : (clock w (clock_reads w) - last <= recovery_timeout self)%Q).
    { specialize (Hwin 0%nat). rewrite Nat.add_0_r in Hwin. apply Hwin. simpl. lia. }
    destruct (IH (failed_fast w)) as (Hc & Hr & Hk).
    { intros i Hi. specialize (Hwin (S i)).
      replace (clock_reads w + S i)%nat with (S (clock_reads w + i)) in Hwin by lia.
      apply Hwin. simpl. lia. }
    cbn [calls]. rewrite call_eq, gate_open_wait with (last := last) by assumption.
    rewrite Hc. cbn [List.length map]. rewrite Nat.iter_succ_r.
    repeat split.
    + rewrite Hr. reflexivity.
    + rewrite Hk. simpl. lia.
Qed.

Lemma rejected_calls_leave_breaker_unchanged_witness :
  let self := tripped_at_0 in
  let w := start down ticking quarter in
  let funcs := [get_u; get_u; get_u] in
  calls funcs (self, w) =
    (map (fun _ => Raise CircuitBreakerIsOpen) funcs,
     (self, Nat.iter (List.length funcs) failed_fast w)) /\
  requests (Nat.iter (List.length funcs) failed_fast w) = requests w /\
  clock_reads (Nat.iter (List.length funcs) failed_fast w) =
    (clock_reads w + List.length funcs)%nat.
Proof.
  intros self w funcs.
  apply (rejected_calls_leave_breaker_unchanged self 0%Q funcs w).
  - reflexivity.
  - reflexivity.
  - intros i Hi. simpl in Hi.
    destruct i as [| [| [| i]]]; [vm_compute; discriminate .. | lia].
Defined.

(** ** Below the threshold the breaker stays closed *)

(** X4.  Take a CLOSED breaker and calls that all raise, few enough for the
    counter to stay below the threshold.  The breaker stays CLOSED and its
    counter has grown by the number of calls: it does not trip early. *)
Theorem closed_breaker_counts_failures_below_threshold funcs :
  forall self w results self' w',
    state self = CLOSED ->
    failure_count self + Z.of_nat (List.length funcs) < failure_threshold self ->
    calls funcs (self, w) = (results, (self', w')) ->
    Forall is_raise results ->
    state self' = CLOSED /\
    failure_count self' = failure_count self + Z.of_nat (List.length funcs) /\
    failure_threshold self' = failure_threshold self.
Proof.
  induction funcs as [| func rest IH]; intros self w results self' w' Hs Hlt Hc Hr.
  - simpl in Hc. injection Hc as <- <- <-. simpl. repeat split; auto; lia.
  - cbn [calls] in Hc. rewrite call_eq, gate_not_open in Hc by congruence.
    cbn [List.length] in Hlt.
    destruct (attempt_cases func self w) as [(e & _ & He) | (response & _ & _ & He)];
      rewrite He in Hc.
    + destruct (calls rest _) as [rs [self2 w2]] eqn:Hrest.
      injection Hc as <- <- <-. inversion Hr as [| ? ? _ Hrs]; subst.
      assert (Hnot : (failure_threshold self <=? failure_count self + 1) = false)
        by (apply Z.leb_gt; lia).
      remember (tripped (clock (snd (func w)) (clock_reads (snd (func w)))) self)
        as self1 eqn:Hself1.
      assert (H1 : state self1 = CLOSED /\
                   failure_count self1 = failure_count self + 1 /\
                   failure_threshold self1 = failure_threshold self).
      { subst self1. unfold tripped. rewrite Hnot. simpl. auto. }
      destruct H1 as (Hs1 & Hc1 & Ht1).
      destruct (IH self1 _ _ _ _ Hs1 ltac:(lia) Hrest Hrs) as (Hs2 & Hc2 & Ht2).
      cbn [List.length]. repeat split; [assumption | lia | congruence].
    + destruct (calls rest _) as [rs [self2 w2]].
      injection Hc as <- <- <-. inversion Hr as [| ? ? Hr1 _]; subst. destruct Hr1.
Qed.

Lemma closed_breaker_counts_failures_below_threshold_witness :
  let out := calls [get_u; get_u] (init 3 10, start down ticking quarter) in
  state (fst (snd out)) = CLOSED /\
  failure_count (fst (snd out)) =
    failure_count (init 3 10) + Z.of_nat (List.length [get_u; get_u]) /\
  failure_threshold (fst (snd out)) = failure_threshold (init 3 10).
Proof.
  intros out.
  apply (closed_breaker_counts_failures_below_threshold [get_u; get_u]
           (init 3 10) (start down ticking quarter) (fst out) (fst (snd out))
           (snd (snd out))).
  - reflexivity.
  - vm_compute. reflexivity.
  - reflexivity.
  - vm_compute. repeat constructor.
Defined.

(** ** Thresholds of one or less *)

(** X5.  A new breaker built with a threshold of 1, 0 or a negative number
    still lets the first call through, and a single failure opens it. *)
Theorem threshold_at_most_one_opens_on_first_failure
    threshold timeout func w r w1 e :
  threshold <= 1 ->
  func w = (r, w1) ->
  failure_of r = Some e ->
  exists self',
    call func (init threshold timeout, w) =
      (Raise e, (self', handled (init threshold timeout) w1)) /\
    state self' = OPEN /\
    failure_count self' = 1 /\
    last_failure_time self' = Some (clock w1 (clock_reads w1)).
Proof.
  intros Hle Hf He.
  exists (tripped (clock w1 (clock_reads w1)) (init threshold timeout)).
  rewrite call_eq, gate_not_open by discriminate.
  rewrite (attempt_failure func _ w r w1 e Hf He).
  split; [reflexivity |]. unfold tripped. simpl.
  destruct (Z.leb_spec threshold (0 + 1)); [| lia]. repeat split.
Qed.

Lemma threshold_at_most_one_opens_on_first_failure_witness :
  let w := start erroring ticking quarter in
  let w1 := snd (get_u w) in
  exists self',
    call get_u (init 0 5, w) = (Raise (ServerError 500), (self', handled (init 0 5) w1)) /\
    state self' = OPEN /\
    failure_count self' = 1 /\
    last_failure_time self' = Some (clock w1 (clock_reads w1)).
Proof.
  intros w w1.
  apply (threshold_at_most_one_opens_on_first_failure 0 5 get_u w (fst (get_u w)) w1
           (ServerError 500)).
  - lia.
  - reflexivity.
  - reflexivity.
Defined.

(** ** The exceptions of lines 24-30 *)

(** X6.  On a reachable breaker, lines 24-30 either let the call through or
    raise the exception of line 30: the [TypeError] of a subtraction from
    [None] cannot happen. *)
Theorem reachable_gate_passes_or_fails_fast threshold timeout self w :
  reachable threshold timeout self ->
  fst (gate (self, w)) = Ok tt \/ fst (gate (self, w)) = Raise CircuitBreakerIsOpen.
Proof.
  intros Hreach. apply reachable_Inv in Hreach.
  destruct (state self) eqn:Hs.
  - left. now rewrite gate_not_open by congruence.
  - destruct (last_failure_time self) as [last |] eqn:Hl.
    + destruct (Qlt_le_dec (recovery_timeout self) (clock w (clock_reads w) - last)).
      * left. now rewrite gate_open_probe with (last := last).
      * right. now rewrite gate_open_wait with (last := last).
    + exfalso. apply (inv_time _ _ _ Hreach); [congruence | assumption].
  - left. now rewrite gate_not_open by congruence.
Qed.

Lemma reachable_gate_passes_or_fails_fast_witness :
  let self := fst after_two_timeouts in
  let w := start down ticking quarter in
  fst (gate (self, w)) = Ok tt \/ fst (gate (self, w)) = Raise CircuitBreakerIsOpen.
Proof.
  intros self w.
  apply (reachable_gate_passes_or_fails_fast 2 5 self w).
  apply after_two_timeouts_reachable.
Defined.

(** X7.  A breaker set to OPEN by hand, with [last_failure_time] still
    [None], makes every call raise [TypeError] at line 25: the operation is
    not run and the breaker stays as it is, so it never recovers. *)
Theorem open_without_failure_time_raises_type_error func self w :
  state self = OPEN ->
  last_failure_time self = None ->
  exists detail,
    call func (self, w) = (Raise (TypeError detail), (self, snd (time_time w))) /\
    requests (snd (time_time w)) = requests w.
Proof.
  intros Hs Hl. destruct (gate_open_unset self w Hs Hl) as [detail Hg].
  exists detail. rewrite call_eq, Hg. split; reflexivity.
Qed.

Lemma open_without_failure_time_raises_type_error_witness :
  let self := set_state OPEN (init 2 5) in
  let w := start up ticking quarter in
  exists detail,
    call get_u (self, w) = (Raise (TypeError detail), (self, snd (time_time w))) /\
    requests (snd (time_time w)) = requests w.
Proof.
  intros self w.
  apply (open_without_failure_time_raises_type_error get_u self w).
  - reflexivity.
  - reflexivity.
Defined.

End CircuitBreakerMore.

(** * Further properties of the retry decorator *)

Module RetryMore.
Import Retry RetryFacts Examples.

#[local] Arguments Z.add : simpl never.
#[local] Arguments Z.ltb : simpl never.
#[local] Arguments Retry.delay : simpl never.
#[local] Arguments Qplus : simpl never.

(** The sleeps of a run that was entered with counter [retries] and sent
    [n] requests: one between two consecutive requests. *)
Lemma loop_shape max_retries base_delay max_delay url m :
  forall retries w,
    m = Z.to_nat (max_retries + 1 - retries) ->
    retries <= max_retries ->
    exists n,
      (1 <= n <= m)%nat /\
      requests (snd (loop max_retries base_delay max_delay (fun _ => requests_get url) retries w))
        = requests w ++ repeat url n /\
      slept (snd (loop max_retries base_delay max_delay (fun _ => requests_get url) retries w))
        = slept w ++
          map (fun i => (delay base_delay max_delay (retries + Z.of_nat i + 1)
                         + uniform w (draws w + i))%Q) (seq 0 (n - 1)) /\
      draws (snd (loop max_retries base_delay max_delay (fun _ => requests_get url) retries w))
        = (draws w + (n - 1))%nat.
Proof.
  induction m as [| m IH]; intros retries w Hm Hle; [lia |].
  destruct (http w url (List.length (requests w))) as [response | e] eqn:Hout.
  - rewrite (loop_returns _ _ _ _ retries w response) by assumption.
    exists 1%nat. simpl. rewrite app_nil_r, Nat.add_0_r. repeat split; lia.
  - destruct (is_request_exception e) eqn:He.
    + destruct (Z.eq_dec retries max_retries) as [-> | Hne].
      * rewrite (loop_gives_up _ _ _ _ w e) by assumption.
        exists 1%nat. simpl. rewrite app_nil_r, Nat.add_0_r. repeat split; lia.
      * rewrite (loop_retries _ _ _ _ retries w e) by (auto; lia).
        destruct (IH (retries + 1) (failed_attempt max_retries base_delay max_delay url retries w))
          as (n & Hn & Hr & Hs & Hd); [lia | lia |].
        destruct (failed_attempt_world max_retries base_delay max_delay url retries w)
          as (_ & Hu1 & Hr1 & Hd1 & Hs1).
        exists (S n). rewrite Hr, Hs, Hd, Hr1, Hs1, Hd1, Hu1.
        split; [lia |]. split; [| split].
        -- rewrite <- app_assoc. reflexivity.
        -- rewrite <- app_assoc. f_equal.
           replace (S n - 1)%nat with (S (n - 1)) by lia.
           cbn [seq map app]. f_equal.
           ++ f_equal; f_equal; lia.
           ++ rewrite <- seq_shift, map_map. apply map_ext. intros i.
              f_equal; f_equal; lia.
        -- lia.
    + rewrite (loop_propagates _ _ _ _ retries w e) by assumption.
      exists 1%nat. simpl. rewrite app_nil_r, Nat.add_0_r. repeat split; lia.
Qed.

(** With [max_retries >= 0] the loop ends in [return] or [raise], never by
    leaving the [while]. *)
Lemma loop_not_none max_retries base_delay max_delay func m :
  forall retries w,
    m = Z.to_nat (max_retries + 1 - retries) ->
    retries <= max_retries ->
    fst (loop max_retries base_delay max_delay func retries w) <> Ok None.
Proof.
  induction m as [| m IH]; intros retries w Hm Hle; [lia |].
  rewrite loop_unfold by assumption.
  unfold try_except_only, bind at 1.
  destruct (func (Some 3) w) as [[response | e] w1]; [discriminate |].
  destruct (is_request_exception e); [| discriminate].
  destruct (Z.ltb_spec max_retries (retries + 1)); [discriminate |].
  unfold bind at 1. simpl. apply IH; lia.
Qed.

Lemma total_bounded bound l :
  Forall (fun d => (d <= bound)%Q) l ->
  (total l <= inject_Z (Z.of_nat (List.length l)) * bound)%Q.
Proof.
  induction 1 as [| d l Hd _ IH].
  - change (0 <= 0 * bound)%Q. lra.
  - cbn [List.length]. rewrite Nat2Z.inj_succ, <- Z.add_1_r, inject_Z_plus.
    unfold total in *. cbn [fold_right].
    change (inject_Z 1) with 1%Q.
    generalize dependent (inject_Z (Z.of_nat (List.length l))).
    generalize dependent (fold_right Qplus 0%Q l). intros t c IH. nra.
Qed.

(** ** Sleeps come between attempts *)



(** ** The time spent sleeping is bounded *)

(** X9.  With [max_retries >= 0], [max_delay >= 0] and every jitter at most
    0.5, a call of the wrapper sleeps at most [max_retries] times, each sleep
    lasts at most [max_delay + 0.5], and the sleeps add up to at most
    [max_retries * (max_delay + 0.5)]. *)
Theorem wrapper_sleep_budget max_retries base_delay max_delay url w :
  0 <= max_retries ->
  (0 <= max_delay)%Q ->
  (forall i, (uniform w i <= 1 # 2)%Q) ->
  let run :=
    exponential_backoff_retry max_retries base_delay max_delay
      (fun _ => requests_get url) w in
  exists naps,
    slept (snd run) = slept w ++ naps /\
    (List.length naps <= Z.to_nat max_retries)%nat /\
    Forall (fun d => (d <= max_delay + (1 # 2))%Q) naps /\
    (total naps <= inject_Z max_retries * (max_delay + (1 # 2)))%Q.
Proof.
  intros Hpos Hmax Hjit run. subst run. unfold exponential_backoff_retry, wrapper.
  destruct (loop_shape max_retries base_delay max_delay url _ 0 w eq_refl Hpos)
    as (n & Hn & _ & Hs & _).
  replace (max_retries + 1 - 0) with (max_retries + 1) in Hn by lia.
  eexists. split; [exact Hs |].
  assert (Hlen : (List.length
                    (map (fun i => (delay base_delay max_delay (0 + Z.of_nat i + 1)
                                    + uniform w (draws w + i))%Q) (seq 0 (n - 1)))
                  <= Z.to_nat max_retries)%nat)
    by (rewrite length_map, length_seq; lia).
  assert (Hall : Forall (fun d => (d <= max_delay + (1 # 2))%Q)
                   (map (fun i => (delay base_delay max_delay (0 + Z.of_nat i + 1)
                                   + uniform w (draws w + i))%Q) (seq 0 (n - 1)))).
  { apply Forall_map, Forall_forall. intros i _.
    pose proof (Q.le_min_r (base_delay * 2 ^ (0 + Z.of_nat i + 1 - 1)) max_delay) as Hcap.
    pose proof (Hjit (draws w + i)%nat) as Hj. unfold delay.
    generalize dependent (Qmin (base_delay * 2 ^ (0 + Z.of_nat i + 1 - 1)) max_delay).
    generalize dependent (uniform w (draws w + i)). intros j Hj c Hc. lra. }
  split; [exact Hlen |]. split; [exact Hall |].
  eapply Qle_trans; [apply total_bounded, Hall |].
  apply Qmult_le_compat_r; [| lra].
  rewrite <- Zle_Qle. lia.
Qed.

Lemma wrapper_sleep_budget_witness :
  let w := start down ticking quarter in
  let run := exponential_backoff_retry 3 1 8 (fun _ => requests_get "u") w in
  exists naps,
    slept (snd run) = slept w ++ naps /\
    (List.length naps <= Z.to_nat 3)%nat /\
    Forall (fun d => (d <= 8 + (1 # 2))%Q) naps /\
    (total naps <= inject_Z 3 * (8 + (1 # 2)))%Q.
Proof.
  intros w.
  apply (wrapper_sleep_budget 3 1 8 "u" w).
  - lia.
  - vm_compute. discriminate.
  - intros i. vm_compute. discriminate.
Defined.

(** ** The wrapper returns a response or raises *)

(** X10.  With [max_retries >= 0] the wrapper never returns [None], whatever
    the decorated function does. *)
Theorem wrapper_returns_response_or_raises max_retries base_delay max_delay func w :
  0 <= max_retries ->
  fst (exponential_backoff_retry max_retries base_delay max_delay func w) <> Ok None.
Proof.
  intros Hpos. unfold exponential_backoff_retry, wrapper.
  apply (loop_not_none max_retries base_delay max_delay func _ 0 w eq_refl Hpos).
Qed.

Lemma wrapper_returns_response_or_raises_witness :
  fst (exponential_backoff_retry 3 1 8 get_u_kw (start up ticking quarter)) <> Ok None.
Proof.
  apply (wrapper_returns_response_or_raises 3 1 8 get_u_kw (start up ticking quarter)).
  lia.
Defined.

(** X11.  With a negative [max_retries] the wrapper does not call the
    decorated function at all and returns [None]: no exception tells the
    caller that nothing was attempted. *)
Theorem negative_max_retries_returns_none max_retries base_delay max_delay func w :
  max_retries < 0 ->
  exponential_backoff_retry max_retries base_delay max_delay func w = (Ok None, w).
Proof.
  intros Hneg. unfold exponential_backoff_retry, wrapper.
  rewrite loop_done by lia. reflexivity.
Qed.

Lemma negative_max_retries_returns_none_witness :
  let w := start up ticking quarter in
  exponential_backoff_retry (-1) 1 8 get_u_kw w = (Ok None, w).
Proof.
  intros w.
  apply (negative_max_retries_returns_none (-1) 1 8 get_u_kw w).
  lia.
Defined.

(** ** The capped delay *)

(** X12.  For a non-negative [base_delay], the delay of line 71 does not
    decrease from one retry to the next, and never exceeds [max_delay]. *)
Theorem delay_nondecreasing_and_capped base_delay max_delay k :
  (0 <= base_delay)%Q ->
  1 <= k ->
  (delay base_delay max_delay k <= delay base_delay max_delay (k + 1))%Q /\
  (delay base_delay max_delay k <= max_delay)%Q.
Proof.
  intros Hb Hk. unfold delay. split; [| apply Q.le_min_r].
  apply Q.min_le_compat_r.
  replace (k + 1 - 1) with ((k - 1) + 1) by lia.
  rewrite Qpower_plus by discriminate.
  assert (Hp : (0 <= 2 ^ (k - 1))%Q) by (apply Qpower_0_le; discriminate).
  change (2 ^ 1)%Q with 2%Q.
  generalize dependent (2 ^ (k - 1))%Q. intros p Hp. nra.
Qed.

Lemma delay_nondecreasing_and_capped_witness :
  (delay 1 8 4 <= delay 1 8 (4 + 1))%Q /\ (delay 1 8 4 <= 8)%Q.
Proof.
  apply (delay_nondecreasing_and_capped 1 8 4).
  - vm_compute. discriminate.
  - lia.
Defined.

(** ** Other exceptions are not retried *)



End RetryMore.

(** * Further properties of the application *)

Module ECommerceAppMore.
Import ECommerceApp ECommerceAppFacts Examples.

#[local] Arguments CircuitBreaker.call : simpl never.
#[local] Arguments Z.ltb : simpl never.
#[local] Arguments Z.leb : simpl never.
#[local] Arguments Z.add : simpl never.

(** [view_product] returns, with the application as it was and a world that
    gained one request and two log records. *)
Lemma view_product_cases self w :
  exists last,
    view_product (self, w) =
      (Ok tt,
       (self,
        snd (logging (fst last) (snd last)
               (snd (requests_get (base_url self ++ "/healthy")%string
                       (snd (logging INFO FetchingTier1 w))))))) /\
    (last = (CRITICAL, Tier1Failed) \/ exists message, last = (INFO, Success message)).
Proof.
  unfold view_product, bind at 1, io at 1. simpl.
  unfold try_except, bind, getattr, io, requests_get, message_of. simpl.
  destruct (http w (base_url self ++ "/healthy")%string (List.length (requests w)))
    as [response | e].
  - destruct (json_message response) as [message | e].
    + exists (INFO, Success message). split; [reflexivity |]. right. now exists message.
    + exists (CRITICAL, Tier1Failed). split; [reflexivity |]. now left.
  - exists (CRITICAL, Tier1Failed). split; [reflexivity |]. now left.
Qed.

(** [load_reviews] returns; it changes nothing of the application but the
    breaker, and adds at most one request to the world. *)
Lemma load_reviews_footprint self w :
  exists reqs self' w',
    load_reviews (self, w) = (Ok tt, (self', w')) /\
    (reqs = [] \/ reqs = [(base_url self ++ "/unreliable")%string]) /\
    requests w' = requests w ++ reqs /\
    slept w' = slept w /\
    draws w' = draws w /\
    base_url self' = base_url self /\
    system_load self' = system_load self.
Proof.
  rewrite load_reviews_eq.
  destruct (CircuitBreakerMore.call_footprint (base_url self ++ "/unreliable")%string
              (unreliable_circuit_breaker self) (snd (logging INFO FetchingTier2 w)))
    as (reqs & Hreqs & Hr & Hs & Hd & _).
  destruct (CircuitBreaker.call _ _) as [[response | e] [cb w1]]; simpl in Hr, Hs, Hd.
  - destruct (json_message response) as [message | e];
      eexists reqs, _, _; (split; [reflexivity |]); simpl; auto 10.
  - eexists reqs, _, _. split; [reflexivity |]. simpl. auto 10.
Qed.

(** A call of [load_reviews] whose request fails, on a breaker that is not
    OPEN. *)
Lemma load_reviews_failure self w e :
  CircuitBreaker.state (unreliable_circuit_breaker self) <> CircuitBreaker.OPEN ->
  CircuitBreaker.failure_of
    (http w (base_url self ++ "/unreliable")%string (List.length (requests w))) = Some e ->
  exists w',
    load_reviews (self, w) =
      (Ok tt,
       (set_unreliable_circuit_breaker
          (CircuitBreaker.tripped (clock w (clock_reads w)) (unreliable_circuit_breaker self))
          self,
        w')) /\
    requests w' = requests w ++ [(base_url self ++ "/unreliable")%string] /\
    http w' = http w /\
    clock w' = clock w /\
    clock_reads w' = S (clock_reads w).
Proof.
  intros Hstate Hfail. rewrite load_reviews_eq.
  rewrite CircuitBreakerFacts.call_eq, CircuitBreakerFacts.gate_not_open by assumption.
  erewrite CircuitBreakerFacts.attempt_failure; [| reflexivity | exact Hfail].
  eexists. split; [reflexivity |].
  destruct (CircuitBreakerMore.handled_world (unreliable_circuit_breaker self)
              (snd (requests_get (base_url self ++ "/unreliable")%string
                      (snd (logging INFO FetchingTier2 w))))) as (Hr & _ & _ & Hh).
  cbn [snd logging set_log requests http clock clock_reads].
  unfold CircuitBreaker.handled in *.
  destruct (_ <=? _); simpl; repeat split.
Qed.

(** ** Tier 1 *)

(** X14.  Whatever the transport does, [view_product] returns normally,
    leaves the application object as it was, sends exactly one request, to
    [base_url + "/healthy"], and never sleeps; its last log record is the
    success message or the CRITICAL record of line 96. *)
Theorem view_product_always_returns self w :
  exists w' last,
    view_product (self, w) = (Ok tt, (self, w')) /\
    requests w' = requests w ++ [(base_url self ++ "/healthy")%string] /\
    slept w' = slept w /\
    log w' = log w ++ [(INFO, FetchingTier1); last] /\
    (last = (CRITICAL, Tier1Failed) \/ exists message, last = (INFO, Success message)).
Proof.
  destruct (view_product_cases self w) as ([lvl msg] & Hv & Hlast).
  eexists _, (lvl, msg). split; [exact Hv |]. simpl.
  rewrite <- app_assoc. repeat split; auto.
Qed.

(** X15.  [view_product] does not look at the status code: a response whose
    body has a message is logged as a success whatever its status, a 500
    included. *)
Theorem view_product_ignores_status_code self w response message :
  http w (base_url self ++ "/healthy")%string (List.length (requests w)) = Ok response ->
  json_message response = Ok message ->
  exists w',
    view_product (self, w) = (Ok tt, (self, w')) /\
    log w' = log w ++ [(INFO, FetchingTier1); (INFO, Success message)].
Proof.
  intros Hout Hmsg. eexists.
  unfold view_product, bind at 1, io at 1. simpl.
  unfold try_except, bind, getattr, io, requests_get, message_of. simpl.
  rewrite Hout, Hmsg. simpl. split; [reflexivity |]. simpl.
  now rewrite <- app_assoc.
Qed.

Lemma view_product_ignores_status_code_witness :
  let self := init "u" in
  let response := {| status_code := 500; json_message := Ok "down"%string |} in
  let w := start (fun _ _ => Ok response) ticking quarter in
  exists w',
    view_product (self, w) = (Ok tt, (self, w')) /\
    log w' = log w ++ [(INFO, FetchingTier1); (INFO, Success "down"%string)].
Proof.
  intros self response w.
  apply (view_product_ignores_status_code self w response "down"%string).
  - reflexivity.
  - reflexivity.
Defined.

(** ** Tier 2 *)

(** X16.  [load_reviews] changes nothing of the application but its circuit
    breaker, sends at most one request, to [base_url + "/unreliable"], and
    never sleeps. *)
Theorem load_reviews_touches_only_the_breaker self w :
  let out := load_reviews (self, w) in
  base_url (fst (snd out)) = base_url self /\
  system_load (fst (snd out)) = system_load self /\
  (requests (snd (snd out)) = requests w \/
   requests (snd (snd out)) = requests w ++ [(base_url self ++ "/unreliable")%string]) /\
  slept (snd (snd out)) = slept w /\
  draws (snd (snd out)) = draws w.
Proof.
  destruct (load_reviews_footprint self w)
    as (reqs & self' & w' & -> & Hreqs & Hr & Hs & Hd & Hb & Hl).
  simpl. rewrite Hr. repeat split; auto.
  destruct Hreqs as [-> | ->]; [left; now rewrite app_nil_r | now right].
Qed.

(** X17.  When the breaker lets the call through and the answer has a
    status below 500 but no readable message, the breaker records a success
    (CLOSED, counter 0) while [load_reviews] logs the fallback. *)
Theorem load_reviews_falls_back_without_message self w response e :
  CircuitBreaker.state (unreliable_circuit_breaker self) <> CircuitBreaker.OPEN ->
  http w (base_url self ++ "/unreliable")%string (List.length (requests w)) = Ok response ->
  status_code response < 500 ->
  json_message response = Raise e ->
  exists w',
    load_reviews (self, w) =
      (Ok tt,
       (set_unreliable_circuit_breaker
          (CircuitBreaker.closed (unreliable_circuit_breaker self)) self, w')) /\
    log w' = log w ++ [(INFO, FetchingTier2); (INFO, FallbackActivated)].
Proof.
  intros Hstate Hout Hlt Hmsg. rewrite load_reviews_eq.
  rewrite CircuitBreakerFacts.call_eq, CircuitBreakerFacts.gate_not_open by assumption.
  erewrite CircuitBreakerFacts.attempt_success;
    [| unfold requests_get; simpl; rewrite Hout; reflexivity | assumption].
  rewrite Hmsg. eexists. split; [reflexivity |]. simpl. now rewrite <- app_assoc.
Qed.

Lemma load_reviews_falls_back_without_message_witness :
  let self := init "u" in
  let response :=
    {| status_code := 404; json_message := Raise (OtherException "KeyError") |} in
  let w := start (fun _ _ => Ok response) ticking quarter in
  exists w',
    load_reviews (self, w) =
      (Ok tt,
       (set_unreliable_circuit_breaker
          (CircuitBreaker.closed (unreliable_circuit_breaker self)) self, w')) /\
    log w' = log w ++ [(INFO, FetchingTier2); (INFO, FallbackActivated)].
Proof.
  intros self response w.
  apply (load_reviews_falls_back_without_message self w response (OtherException "KeyError")).
  - discriminate.
  - reflexivity.
  - reflexivity.
  - reflexivity.
Defined.

(** X18.  While the breaker is OPEN and [recovery_timeout] has not elapsed,
    [load_reviews] sends no request, leaves the application as it was, and
    logs the fail-fast error followed by the fallback. *)
Theorem load_reviews_open_breaker_sends_nothing self w last :
  CircuitBreaker.state (unreliable_circuit_breaker self) = CircuitBreaker.OPEN ->
  CircuitBreaker.last_failure_time (unreliable_circuit_breaker self) = Some last ->
  (clock w (clock_reads w) - last
     <= CircuitBreaker.recovery_timeout (unreliable_circuit_breaker self))%Q ->
  exists w',
    load_reviews (self, w) = (Ok tt, (self, w')) /\
    requests w' = requests w /\
    log w' = log w ++ [(INFO, FetchingTier2); (ERROR, CircuitIsOpenFailingFast);
                       (INFO, FallbackActivated)].
Proof.
  intros Hstate Hlast Hwin. rewrite load_reviews_eq.
  rewrite CircuitBreakerFacts.call_eq,
    CircuitBreakerFacts.gate_open_wait with (last := last) by assumption.
  eexists. split; [destruct self; reflexivity |]. simpl.
  rewrite <- !app_assoc. split; reflexivity.
Qed.

Lemma load_reviews_open_breaker_sends_nothing_witness :
  let self := set_unreliable_circuit_breaker tripped_at_0 (init "u") in
  let w := start up ticking quarter in
  exists w',
    load_reviews (self, w) = (Ok tt, (self, w')) /\
    requests w' = requests w /\
    log w' = log w ++ [(INFO, FetchingTier2); (ERROR, CircuitIsOpenFailingFast);
                       (INFO, FallbackActivated)].
Proof.
  intros self w.
  apply (load_reviews_open_breaker_sends_nothing self w 0%Q).
  - reflexivity.
  - reflexivity.
  - vm_compute. discriminate.
Defined.

(** X19.  On a new application, two calls of [load_reviews] whose requests
    fail (an exception, or a status of 500 or more) both return normally and
    leave the breaker OPEN with a counter of 2, after exactly two requests. *)
Theorem two_failed_reviews_open_the_breaker url w e1 e2 :
  let target := (url ++ "/unreliable")%string in
  CircuitBreaker.failure_of (http w target (List.length (requests w))) = Some e1 ->
  CircuitBreaker.failure_of (http w target (S (List.length (requests w)))) = Some e2 ->
  let out1 := load_reviews (init url, w) in
  let out2 := load_reviews (snd out1) in
  fst out1 = Ok tt /\ fst out2 = Ok tt /\
  CircuitBreaker.state (unreliable_circuit_breaker (fst (snd out2))) = CircuitBreaker.OPEN /\
  CircuitBreaker.failure_count (unreliable_circuit_breaker (fst (snd out2))) = 2 /\
  requests (snd (snd out2)) = requests w ++ [target; target].
Proof.
  intros target H1 H2 out1 out2. subst out1 out2.
  destruct (load_reviews_failure (init url) w e1) as (w1 & E1 & Hr1 & Hh1 & _);
    [discriminate | exact H1 |].
  rewrite E1. cbn [fst snd].
  destruct (load_reviews_failure
              (set_unreliable_circuit_breaker
                 (CircuitBreaker.tripped (clock w (clock_reads w))
                    (unreliable_circuit_breaker (init url))) (init url)) w1 e2)
    as (w2 & E2 & Hr2 & _).
  - discriminate.
  - cbn [base_url set_unreliable_circuit_breaker init].
    rewrite Hh1, Hr1, length_app. cbn [List.length].
    replace (List.length (requests w) + 1)%nat with (S (List.length (requests w))) by lia.
    exact H2.
  - rewrite E2. cbn [fst snd]. rewrite Hr2, Hr1, <- app_assoc.
    repeat split.
Qed.

Lemma two_failed_reviews_open_the_breaker_witness :
  let w := start erroring ticking quarter in
  let target := ("u" ++ "/unreliable")%string in
  let out1 := load_reviews (init "u", w) in
  let out2 := load_reviews (snd out1) in
  fst out1 = Ok tt /\ fst out2 = Ok tt /\
  CircuitBreaker.state (unreliable_circuit_breaker (fst (snd out2))) = CircuitBreaker.OPEN /\
  CircuitBreaker.failure_count (unreliable_circuit_breaker (fst (snd out2))) = 2 /\
  requests (snd (snd out2)) = requests w ++ [target; target].
Proof.
  intros w.
  apply (two_failed_reviews_open_the_breaker "u" w (ServerError 500) (ServerError 500)).
  - reflexivity.
  - reflexivity.
Defined.

(** ** Tier 3 *)

(** X20.  [load_recommendations] never reaches the network.  Whatever the
    load and the transport, it sends no request, never sleeps, draws no
    jitter and leaves the application as it was; it logs the load-shedding
    warning when the load exceeds 80 and the graceful-degradation record
    otherwise, never a success.  The cause is line 63: the wrapper passes
    [timeout=3] to a function that takes [self] only. *)
Theorem load_recommendations_never_requests self w :
  exists w' last,
    load_recommendations (self, w) = (Ok tt, (self, w')) /\
    requests w' = requests w /\
    slept w' = slept w /\
    draws w' = draws w /\
    log w' = log w ++ [(INFO, FetchingTier3); last] /\
    last = (if 80 <? system_load self
            then (WARNING, LoadSheddingActive)
            else (INFO, GracefulDegradation)).
Proof.
  rewrite load_recommendations_eq.
  destruct (80 <? system_load self);
    eexists _, _; (split; [reflexivity |]); simpl; rewrite <- app_assoc;
    repeat split.
Qed.

(** ** ChaosMonkey *)

(** X21.  The monkey only sets the load (and logs): after
    [inject_load_spike] a call of [load_recommendations] is shed, after
    [resolve_load_spike] it is not, whatever the load was before; the
    circuit breaker and the base URL are as they were, and no request is
    sent. *)
Theorem chaos_monkey_toggles_shedding self w :
  let spiked := snd (ChaosMonkey.inject_load_spike (self, w)) in
  let calmed := snd (ChaosMonkey.resolve_load_spike (self, w)) in
  load_recommendations spiked = (Ok tt, (fst spiked, shed (snd spiked))) /\
  load_recommendations calmed = (Ok tt, (fst calmed, hidden (snd calmed))) /\
  unreliable_circuit_breaker (fst spiked) = unreliable_circuit_breaker self /\
  unreliable_circuit_breaker (fst calmed) = unreliable_circuit_breaker self /\
  base_url (fst spiked) = base_url self /\
  base_url (fst calmed) = base_url self /\
  requests (snd spiked) = requests w /\
  requests (snd calmed) = requests w.
Proof.
  simpl. rewrite !load_recommendations_eq. repeat split.
Qed.

End ECommerceAppMore.

(** * Properties of the script *)

Module MainFacts.
Import Main Examples.

#[local] Arguments ECommerceApp.view_product : simpl never.
#[local] Arguments ECommerceApp.load_reviews : simpl never.
#[local] Arguments ECommerceApp.load_recommendations : simpl never.

Local Open Scope py_scope.

Lemma Step_trans e1 e2 s s1 s2 :
  Step e1 s s1 -> Step e2 s1 s2 -> Step (and_then e1 e2) s s2.
Proof.
  intros (Hr1 & Hs1 & Hd1 & Ho1 & Hl1 & Hb1) (Hr2 & Hs2 & Hd2 & Ho2 & Hl2 & Hb2).
  unfold Step. simpl.
  rewrite Hr2, Hr1, Hs2, Hs1, Hd2, Hd1, Ho2, Ho1, Hl2, Hb2, Hb1, !app_assoc.
  repeat split. destruct (load_set e2); [reflexivity | exact Hl1].
Qed.

Lemma runs_bind m1 m2 (E1 E2 : Effect -> Prop) :
  runs m1 E1 -> runs m2 E2 ->
  runs (m1 ;; m2) (fun e => exists e1 e2, E1 e1 /\ E2 e2 /\ e = and_then e1 e2).
Proof.
  intros H1 H2 s Hb.
  destruct (H1 s Hb) as (s1 & e1 & Hm1 & HE1 & Hstep1).
  assert (Hb1 : ECommerceApp.base_url (app (fst s1)) = API_URL).
  { destruct Hstep1 as (_ & _ & _ & _ & _ & ->). exact Hb. }
  destruct (H2 s1 Hb1) as (s2 & e2 & Hm2 & HE2 & Hstep2).
  exists s2, (and_then e1 e2). unfold bind. rewrite Hm1, Hm2.
  split; [reflexivity |]. split; [now exists e1, e2 |].
  now apply Step_trans with (s1 := s1).
Qed.

Lemma runs_ret : runs (ret tt) (fun e => e = nothing).
Proof.
  intros s _. exists s, nothing. unfold Step. simpl.
  rewrite !app_nil_r. repeat split.
Qed.

Lemma runs_print text :
  runs (print text)
    (fun e => e = {| sent := []; napped := []; printed := [text]; load_set := None |}).
Proof.
  intros [p w] _. eexists _, _. split; [reflexivity |]. split; [reflexivity |].
  unfold Step. simpl. rewrite !app_nil_r. repeat split.
Qed.

Lemma runs_sleep seconds :
  runs (io (time_sleep seconds))
    (fun e => e = {| sent := []; napped := [seconds]; printed := []; load_set := None |}).
Proof.
  intros [p w] _. eexists _, _. split; [reflexivity |]. split; [reflexivity |].
  unfold Step. simpl. rewrite !app_nil_r. repeat split.
Qed.

Lemma runs_view_product :
  runs (on_app ECommerceApp.view_product)
    (fun e => e = {| sent := [healthy_url]; napped := []; printed := [];
                     load_set := None |}).
Proof.
  intros [p w] Hb. simpl in Hb.
  destruct (ECommerceAppMore.view_product_cases (app p) w) as (last & Hv & _).
  eexists _, _. unfold on_app. cbn [fst snd]. rewrite Hv.
  split; [reflexivity |]. split; [reflexivity |].
  unfold Step, healthy_url. simpl. rewrite Hb, !app_nil_r. repeat split.
Qed.

Lemma runs_load_reviews :
  runs (on_app ECommerceApp.load_reviews)
    (fun e => exists reqs,
       (reqs = [] \/ reqs = [unreliable_url]) /\
       e = {| sent := reqs; napped := []; printed := []; load_set := None |}).
Proof.
  intros [p w] Hb. simpl in Hb.
  destruct (ECommerceAppMore.load_reviews_footprint (app p) w)
    as (reqs & a' & w' & Hl & Hreqs & Hr & Hs & Hd & Hbase & Hload).
  eexists _, _. unfold on_app. cbn [fst snd]. rewrite Hl.
  split; [reflexivity |]. split.
  - exists reqs. split; [| reflexivity]. unfold unreliable_url. now rewrite <- Hb.
  - unfold Step. simpl. rewrite Hr, Hs, Hd, Hbase, Hload, !app_nil_r. repeat split.
Qed.

Lemma runs_load_recommendations :
  runs (on_app ECommerceApp.load_recommendations) (fun e => e = nothing).
Proof.
  intros [p w] _.
  eexists _, _. unfold on_app. cbn [fst snd].
  rewrite ECommerceAppFacts.load_recommendations_eq.
  split; [reflexivity |]. split; [reflexivity |].
  unfold Step. destruct (80 <? _); simpl; rewrite !app_nil_r; repeat split.
Qed.

Lemma runs_inject_load_spike :
  runs (on_app ChaosMonkey.inject_load_spike)
    (fun e => e = {| sent := []; napped := []; printed := []; load_set := Some 95 |}).
Proof.
  intros [p w] _. eexists _, _. split; [reflexivity |]. split; [reflexivity |].
  unfold Step. simpl. rewrite !app_nil_r. repeat split.
Qed.

Lemma runs_resolve_load_spike :
  runs (on_app ChaosMonkey.resolve_load_spike)
    (fun e => e = {| sent := []; napped := []; printed := []; load_set := Some 20 |}).
Proof.
  intros [p w] _. eexists _, _. split; [reflexivity |]. split; [reflexivity |].
  unfold Step. simpl. rewrite !app_nil_r. repeat split.
Qed.

(** The effect of the whole script: four requests to [/healthy], each
    followed by at most one to [/unreliable]; three sleeps of one second;
    three banners; the load ends at 20. *)
Lemma script_effect s :
  ECommerceApp.base_url (app (fst s)) = API_URL ->
  exists s' r1 r2 r3 r4,
    script s = (Ok tt, s') /\
    (r1 = [] \/ r1 = [unreliable_url]) /\
    (r2 = [] \/ r2 = [unreliable_url]) /\
    (r3 = [] \/ r3 = [unreliable_url]) /\
    (r4 = [] \/ r4 = [unreliable_url]) /\
    Step {| sent := healthy_url :: r1 ++ healthy_url :: r2 ++ healthy_url :: r3
                      ++ healthy_url :: r4;
            napped := [1; 1; 1]%Q;
            printed := [banner "STARTING NORMAL OPERATIONS";
                        banner "STARTING CHAOS / DEGRADATION TEST";
                        banner "TESTING RETRY WITH BACKOFF"];
            load_set := Some 20 |} s s'.
Proof.
  intros Hb.
  pose proof (runs_bind _ _ _ _ runs_view_product
                (runs_bind _ _ _ _ runs_load_reviews (runs_sleep 1))) as Hround.
  pose proof
    (runs_bind _ _ _ _ (runs_print (banner "STARTING NORMAL OPERATIONS"))
    (runs_bind _ _ _ _
       (runs_bind _ _ _ _ Hround
          (runs_bind _ _ _ _ Hround (runs_bind _ _ _ _ Hround runs_ret)))
    (runs_bind _ _ _ _ (runs_print (banner "STARTING CHAOS / DEGRADATION TEST"))
    (runs_bind _ _ _ _ runs_inject_load_spike
    (runs_bind _ _ _ _ runs_view_product
    (runs_bind _ _ _ _ runs_load_reviews
    (runs_bind _ _ _ _ runs_load_recommendations
    (runs_bind _ _ _ _ (runs_print (banner "TESTING RETRY WITH BACKOFF"))
    (runs_bind _ _ _ _ runs_resolve_load_spike runs_load_recommendations)))))))))
    as Hscript.
  destruct (Hscript s Hb) as (s' & e & Hrun & HE & Hstep).
  repeat match goal with
         | H : exists _, _ |- _ => destruct H
         | H : _ /\ _ |- _ => destruct H
         end.
  subst.
  unfold and_then in Hstep. simpl in Hstep.
  rewrite ?app_nil_r in Hstep.
  repeat rewrite <- ?app_assoc, <- ?app_comm_cons in Hstep.
  match type of Hstep with
  | Step {| sent := _ :: ?a ++ _ :: ?b ++ _ :: ?c ++ _ :: ?d;
            napped := _; printed := _; load_set := _ |} _ _ =>
      exists s', a, b, c, d
  end.
  split; [exact Hrun |]. do 4 (split; [assumption |]). exact Hstep.
Qed.

(** ** The script always completes *)

(** X22.  Whatever the transport, the clock and the generator do, the script
    runs to its end without an exception.  It sleeps exactly three times,
    one second each, and draws no jitter: the wrapper never backs off, in
    the phase announced as the retry test either.  It prints its three
    banners and leaves [system_load] at 20. *)
Theorem main_always_completes w :
  exists p' w',
    main w = (Ok tt, (p', w')) /\
    slept w' = slept w ++ [1; 1; 1]%Q /\
    draws w' = draws w /\
    stdout p' = [banner "STARTING NORMAL OPERATIONS";
                 banner "STARTING CHAOS / DEGRADATION TEST";
                 banner "TESTING RETRY WITH BACKOFF"] /\
    ECommerceApp.system_load (app p') = 20.
Proof.
  unfold main.
  destruct (script_effect
              ({| app := ECommerceApp.init API_URL; stdout := [] |}, w) eq_refl)
    as ([p' w'] & r1 & r2 & r3 & r4 & Hrun & _ & _ & _ & _ & Hstep).
  destruct Hstep as (_ & Hs & Hd & Ho & Hl & _). simpl in *.
  exists p', w'. repeat split; assumption.
Qed.

(** The three URLs are pairwise distinct. *)
Lemma urls_distinct :
  healthy_url <> unreliable_url /\ slow_url <> healthy_url /\ slow_url <> unreliable_url.
Proof.
  repeat split; intros H; apply (f_equal String.length) in H;
    vm_compute in H; discriminate.
Qed.

(** The requests of a run: four to [h], each followed by at most one to
    [u], none to a third URL. *)
Lemma request_pattern (h u s : string) r1 r2 r3 r4 :
  h <> u -> s <> h -> s <> u ->
  (r1 = [] \/ r1 = [u]) -> (r2 = [] \/ r2 = [u]) ->
  (r3 = [] \/ r3 = [u]) -> (r4 = [] \/ r4 = [u]) ->
  let reqs := h :: r1 ++ h :: r2 ++ h :: r3 ++ h :: r4 in
  Forall (fun url => url = h \/ url = u) reqs /\
  count_occ string_dec reqs h = 4%nat /\
  (4 <= List.length reqs <= 8)%nat /\
  ~ In s reqs.
Proof.
  intros Hhu Hsh Hsu H1 H2 H3 H4 reqs. subst reqs.
  assert (Huh : u <> h) by congruence.
  destruct H1 as [-> | ->], H2 as [-> | ->], H3 as [-> | ->], H4 as [-> | ->];
    cbn [Datatypes.app];
    (split; [repeat (apply Forall_cons; [first [now left | now right] |]);
             apply Forall_nil |]);
    (split; [repeat first [rewrite count_occ_cons_eq by reflexivity
                          | rewrite count_occ_cons_neq by assumption];
             reflexivity |]);
    (split; [cbn [List.length]; lia |]);
    cbn [In]; intuition congruence.
Qed.

(** X23.  The script sends between four and eight requests: exactly four to
    [/healthy], the others to [/unreliable], and none to [/slow]. *)
Theorem main_requests w :
  exists reqs,
    requests (snd (snd (main w))) = requests w ++ reqs /\
    Forall (fun url => url = healthy_url \/ url = unreliable_url) reqs /\
    count_occ string_dec reqs healthy_url = 4%nat /\
    (4 <= List.length reqs <= 8)%nat /\
    ~ In slow_url reqs.
Proof.
  unfold main.
  destruct (script_effect
              ({| app := ECommerceApp.init API_URL; stdout := [] |}, w) eq_refl)
    as ([p' w'] & r1 & r2 & r3 & r4 & Hrun & H1 & H2 & H3 & H4 & Hstep).
  destruct Hstep as (Hr & _). rewrite Hrun. cbn [fst snd sent] in *.
  destruct urls_distinct as (Hhu & Hsh & Hsu).
  eexists. split; [exact Hr |].
  exact (request_pattern healthy_url unreliable_url slow_url r1 r2 r3 r4
           Hhu Hsh Hsu H1 H2 H3 H4).
Qed.

End MainFacts.

(** * Properties of the handlers of lambda_api.py *)

Module LambdaApiFacts.
Import LambdaApi.

(** ** Status and body *)

(** X24.  Every handler answers 200 or 500 with the JSON content type, and
    the body has a ["message"] entry exactly when the status is 200.  Only
    [unreliable_handler] can answer 500, and it does so exactly when the
    number it draws is below 0.5. *)
Theorem handlers_carry_message_exactly_on_200
    {E C} (event : E) (context : C) (rt : Runtime) :
  let healthy := fst (healthy_handler event context rt) in
  let unreliable := fst (unreliable_handler event context rt) in
  let slow := fst (slow_handler event context rt) in
  statusCode healthy = 200 /\
  statusCode slow = 200 /\
  (statusCode unreliable = 500 <-> (generated rt (calls rt) < 1 # 2)%Q) /\
  (statusCode unreliable = 200 <-> (1 # 2 <= generated rt (calls rt))%Q) /\
  Forall (fun r =>
            headers r = json_headers /\
            (statusCode r = 200 \/ statusCode r = 500) /\
            (lookup "message" (body_dict r) <> None <-> statusCode r = 200))
         [healthy; unreliable; slow].
Proof.
  unfold healthy_handler, unreliable_handler, slow_handler, random_next.
  cbn [fst snd statusCode].
  assert (Hmsg : forall r : Result,
             headers r = json_headers ->
             (statusCode r = 200 /\ lookup "message" (body_dict r) <> None) \/
             (statusCode r = 500 /\ lookup "message" (body_dict r) = None) ->
             headers r = json_headers /\
             (statusCode r = 200 \/ statusCode r = 500) /\
             (lookup "message" (body_dict r) <> None <-> statusCode r = 200)).
  { intros r Hh [[Hs Hl] | [Hs Hl]]; (split; [exact Hh |]); rewrite Hs, ?Hl.
    - split; [now left | split; auto].
    - split; [now right | split; [intros H; now destruct H | discriminate]]. }
  destruct (Qgt_bool (1 # 2) (generated rt (calls rt))) eqn:Hdraw.
  - apply Qgt_bool_true in Hdraw. cbn [fst statusCode].
    split; [reflexivity |]. split; [reflexivity |].
    split; [split; auto |].
    split; [split; [discriminate | intros H; exfalso; exact (Qlt_not_le _ _ Hdraw H)] |].
    repeat (apply Forall_cons; [apply Hmsg; [reflexivity |] |]); try apply Forall_nil.
    + left. split; [reflexivity | discriminate].
    + right. split; reflexivity.
    + left. split; [reflexivity | discriminate].
  - apply Qgt_bool_false in Hdraw. cbn [fst statusCode].
    split; [reflexivity |]. split; [reflexivity |].
    split; [split; [discriminate | intros H; exfalso; exact (Qlt_not_le _ _ H Hdraw)] |].
    split; [split; auto |].
    repeat (apply Forall_cons; [apply Hmsg; [reflexivity |] |]); try apply Forall_nil.
    + left. split; [reflexivity | discriminate].
    + left. split; [reflexivity | discriminate].
    + left. split; [reflexivity | discriminate].
Qed.

(** ** Sleeping *)

(** X25.  [slow_handler] sleeps exactly once, for the delay it drew, and the
    latency it reports is that delay rounded to two digits; with a draw
    between 1 and 10 the sleep lasts between 1 and 10 seconds.  The other
    two handlers never sleep. *)
Theorem only_slow_handler_sleeps
    {E C} (event : E) (context : C) (rt : Runtime) :
  (1 <= generated rt (calls rt) <= 10)%Q ->
  let delay := generated rt (calls rt) in
  naps (snd (slow_handler event context rt)) = naps rt ++ [delay] /\
  (1 <= delay <= 10)%Q /\
  lookup "latency_seconds" (body_dict (fst (slow_handler event context rt)))
    = Some (Round delay 2) /\
  calls (snd (slow_handler event context rt)) = S (calls rt) /\
  naps (snd (healthy_handler event context rt)) = naps rt /\
  naps (snd (unreliable_handler event context rt)) = naps rt.
Proof.
  intros Hrange delay.
  unfold slow_handler, healthy_handler, unreliable_handler, random_next. simpl.
  destruct (Qgt_bool _ _); repeat split; try reflexivity; apply Hrange.
Qed.

Lemma only_slow_handler_sleeps_witness :
  let rt := {| generated := fun _ => 4%Q; calls := 0; naps := [] |} in
  let delay := generated rt (calls rt) in
  naps (snd (slow_handler tt tt rt)) = naps rt ++ [delay] /\
  (1 <= delay <= 10)%Q /\
  lookup "latency_seconds" (body_dict (fst (slow_handler tt tt rt)))
    = Some (Round delay 2) /\
  calls (snd (slow_handler tt tt rt)) = S (calls rt) /\
  naps (snd (healthy_handler tt tt rt)) = naps rt /\
  naps (snd (unreliable_handler tt tt rt)) = naps rt.
Proof.
  intros rt.
  apply (only_slow_handler_sleeps tt tt rt).
  split; vm_compute; discriminate.
Defined.

End LambdaApiFacts.
